(** * OTP secret messages: the cipher core of [src/App.tsx]

    A shallow embedding of the one-time-pad component: the fixed alphabet,
    the normalizer, the index codec, the pad generator, modular encode and
    decode, and the React state of the decrypt flow with its countdown.

    Conventions of the embedding.
    - A JavaScript string is the list of code points that [for (const ch of s)]
      yields.  Every string the program measures with [.length] or indexes
      with [alphabet[i]] consists of characters of the Basic Multilingual
      Plane, where code points and UTF-16 code units coincide.
    - A JavaScript number is an integer or [NaN].  The program only ever
      adds, subtracts and reduces small integers, on which double precision
      arithmetic is exact; negative zero behaves as zero in every use made
      of it and is not distinguished.
    - Text shown in the status line is kept as the bytes of the source file. *)

From Stdlib Require Import ZArith NArith String Ascii List Lia.
From stdpp Require Import base decidable option list numbers strings pretty.

Local Open Scope Z_scope.

(** ** JavaScript values *)

Abbreviation jsstring := (list N).

(** An ASCII literal of the source as a JavaScript string. *)
Definition lit (s : string) : jsstring :=
  map N_of_ascii (list_ascii_of_string s).

Inductive number : Type :=
| Int (z : Z)
| NaN.

#[global] Instance number_eq_dec : EqDecision number.
Proof. solve_decision. Defined.

(** [a[i]] on an array is [undefined] out of range; arithmetic turns
    [undefined] into [NaN]. *)
Definition ToNumber (v : option number) : number :=
  match v with
  | Some n => n
  | None => NaN
  end.

Definition js_add (a b : number) : number :=
  match a, b with
  | Int x, Int y => Int (x + y)
  | _, _ => NaN
  end.

Definition js_sub (a b : number) : number :=
  match a, b with
  | Int x, Int y => Int (x - y)
  | _, _ => NaN
  end.

(** The [%] operator: the remainder takes the sign of the dividend, and a
    zero divisor gives [NaN]. *)
Definition js_rem (a b : number) : number :=
  match a, b with
  | Int x, Int y => if y =? 0 then NaN else Int (Z.rem x y)
  | _, _ => NaN
  end.

(** A thrown exception: [String(e)] of an error with an empty message is its
    name. *)
Record exn : Type := mkExn { ename : string; emessage : string }.

Definition Error (msg : string) : exn := mkExn "Error" msg.

Inductive result (A : Type) : Type :=
| Ok (a : A)
| Throw (e : exn).
Arguments Ok {A} a.
Arguments Throw {A} e.

#[global] Instance result_ret : MRet result := fun A a => Ok a.

#[global] Instance result_bind : MBind result := fun A B k r =>
  match r with
  | Ok a => k a
  | Throw e => Throw e
  end.

(** [if (cond) throw new Error(msg)] *)
Definition throw_if (cond : bool) (msg : string) : result unit :=
  if cond then Throw (Error msg) else Ok tt.

(** ** Alphabet *)

(** [UNIFIED_ALPHABET]: the letters with U+00D1 after N, the digits, the
    space and the signs; the two escapes of the literal are the backslash
    (92) and the double quote (34). *)
Definition N_TILDE : N := 0xD1.

Definition UNIFIED_ALPHABET : jsstring :=
  lit "ABCDEFGHIJKLMN" ++ [N_TILDE] ++
  lit "OPQRSTUVWXYZ0123456789 !?,.:;-_()@#$/+*=<>" ++ [92%N; 34%N] ++
  lit "'[]{}".

(** [alphabet.length] *)
Definition js_length (s : jsstring) : number := Int (Z.of_nat (length s)).

(** [alphabet.includes(ch)] for a single character [ch]. *)
Definition includes (alphabet : jsstring) (ch : N) : bool :=
  bool_decide (ch ∈ alphabet).

(** [alphabet.indexOf(ch)]: the first position of [ch], or -1. *)
Fixpoint indexOf_from (alphabet : jsstring) (ch : N) (i : Z) : Z :=
  match alphabet with
  | [] => -1
  | c :: rest => if (c =? ch)%N then i else indexOf_from rest ch (i + 1)
  end.

Definition indexOf (alphabet : jsstring) (ch : N) : number :=
  Int (indexOf_from alphabet ch 0).

(** [alphabet[i]]: [undefined] unless [i] is an index of the string. *)
Definition js_at (alphabet : jsstring) (i : number) : option N :=
  match i with
  | Int z => if 0 <=? z then alphabet !! Z.to_nat z else None
  | NaN => None
  end.

(** ** Index codec and cipher engine *)

Definition toIndices (text alphabet : jsstring) : list number :=
  map (fun ch => indexOf alphabet ch) text.

(** [arr.map((i) => alphabet[i]).join(empty)]: [join] renders [undefined]
    as the empty string. *)
Definition fromIndices (arr : list number) (alphabet : jsstring) : jsstring :=
  arr ≫= (fun i => option_list (js_at alphabet i)).

(** [m.map((v, i) => (v + p[i]) % mod)] *)
Definition otpAdd (m p : list number) (md : number) : list number :=
  imap (fun i v => js_rem (js_add v (ToNumber (p !! i))) md) m.

(** [c.map((v, i) => ((v - p[i]) % mod + mod) % mod)] *)
Definition otpSub (c p : list number) (md : number) : list number :=
  imap (fun i v => js_rem (js_add (js_rem (js_sub v (ToNumber (p !! i))) md) md) md) c.

(** An index sequence over a modulus [M]: integers in [0, M). *)
Definition is_index (M : Z) (v : number) : Prop :=
  match v with
  | Int z => 0 <= z < M
  | NaN => False
  end.

Definition IndexSequence (M : Z) (l : list number) : Prop :=
  Forall (is_index M) l.

(** ** Unicode built-ins

    [toUpperCase] and [normalize("NFD")] belong to the JavaScript engine.
    They are determined by three tables of the Unicode Character Database,
    which are taken as a parameter: the full uppercase mapping of a code
    point (UnicodeData and SpecialCasing), its full canonical decomposition,
    and its canonical combining class. *)

Class UnicodeData : Type := {
  uppercase_mapping : N -> list N;
  canonical_decomposition : N -> list N;
  combining_class : N -> N
}.

Section Builtins.
Context {U : UnicodeData}.

(** [s.toUpperCase()]: every code point is replaced by its uppercase
    mapping, which may be longer than one character. *)
Definition toUpperCase (s : jsstring) : jsstring :=
  s ≫= uppercase_mapping.

(** Canonical ordering: a character of non-zero combining class moves back
    over the characters of greater class that precede it. *)
Fixpoint reorder_insert (c : N) (racc : list N) : list N :=
  match racc with
  | d :: rest =>
      if ((0 <? combining_class c) && (combining_class c <? combining_class d))%N
      then d :: reorder_insert c rest
      else c :: racc
  | [] => [c]
  end.

Definition canonical_order (s : jsstring) : jsstring :=
  rev (fold_left (fun racc c => reorder_insert c racc) s []).

(** [s.normalize("NFD")]: canonical decomposition, then canonical ordering. *)
Definition normalize_NFD (s : jsstring) : jsstring :=
  canonical_order (s ≫= canonical_decomposition).

(** [s.replace(re, empty)] with the global pattern for the range U+0300 to
    U+036F: every combining diacritical mark of that block is removed. *)
Definition is_diacritic (c : N) : bool :=
  ((0x300 <=? c) && (c <=? 0x36F))%N.

Definition replace_diacritics (s : jsstring) : jsstring :=
  filter (fun c => is_diacritic c = false) s.

(** ** Normalizer *)

Definition normalizeInput (input alphabet : jsstring) : jsstring :=
  let s := toUpperCase input in
  let s := replace_diacritics (normalize_NFD s) in
  fold_left (fun out ch => if includes alphabet ch then out ++ [ch] else out) s [].

End Builtins.

(** ** Pad generator

    [crypto] is the browser's secure random source: the 32-bit words it
    delivers to a call, position by position, and the message of the
    exception it raises.  [getRandomValues] refuses a buffer of more than
    65536 bytes with a QuotaExceededError (Web Cryptography API). *)

Record Crypto : Type := {
  random_word : nat -> Z;
  quota_message : string
}.

(** [new Uint32Array(len)] *)
Definition Uint32Array (len : nat) : list Z := replicate len 0.

Definition byteLength (buf : list Z) : Z := 4 * Z.of_nat (length buf).

Definition getRandomValues (crypto : Crypto) (buf : list Z) : result (list Z) :=
  if 65536 <? byteLength buf
  then Throw (mkExn "QuotaExceededError" (quota_message crypto))
  else Ok (imap (fun i _ => random_word crypto i `mod` 2 ^ 32) buf).

Definition randomPad (crypto : Crypto) (len : nat) (alphabet : jsstring) : result jsstring :=
  let md := js_length alphabet in
  let buf := Uint32Array len in
  buf ← getRandomValues crypto buf;
  let idx := map (fun n => js_rem (Int n) md) buf in
  mret (fromIndices idx alphabet).

(** The index that [onEncrypt] reads at position [i] of a fresh pad of [len]
    symbols, [toIndices(randomPad(len, alphabet), alphabet)[i]]; there is
    none when [randomPad] throws or the pad is shorter. *)
Definition pad_index (crypto : Crypto) (len i : nat) (alphabet : jsstring) : option number :=
  match randomPad crypto len alphabet with
  | Ok newPad => toIndices newPad alphabet !! i
  | Throw _ => None
  end.

(** The source that delivers the word [n] at position [i] and the words of
    [crypto] elsewhere. *)
Definition with_word (crypto : Crypto) (i : nat) (n : Z) : Crypto :=
  {| random_word := fun j => if decide (j = i) then n else random_word crypto j;
     quota_message := quota_message crypto |}.

(** ** The component [OTPApp]

    The React state of the component, one field per [useState], and
    [interval]: whether the interval registered by the countdown effect is
    still pending (it is not React state, but the resource the effect owns). *)

Inductive Mode : Type := encrypt | decrypt.
Inductive DecryptStep : Type := askPad | ready.
Inductive Tone : Type := ok | warn | err.

#[global] Instance Mode_eq_dec : EqDecision Mode.
Proof. solve_decision. Defined.

Record Status : Type := mkStatus { text : string; tone : option Tone }.

Record Session : Type := mkSession {
  modeScreen : option Mode;
  decryptStep : DecryptStep;
  padInput : jsstring;
  message : jsstring;
  cipher : jsstring;
  pad : jsstring;
  status : Status;
  showEncryptResults : bool;
  countdown : option Z;
  interval : bool
}.

Definition setModeScreen (v : option Mode) (s : Session) : Session :=
  mkSession v (decryptStep s) (padInput s) (message s) (cipher s) (pad s)
    (status s) (showEncryptResults s) (countdown s) (interval s).
Definition setDecryptStep (v : DecryptStep) (s : Session) : Session :=
  mkSession (modeScreen s) v (padInput s) (message s) (cipher s) (pad s)
    (status s) (showEncryptResults s) (countdown s) (interval s).
Definition setPadInput (v : jsstring) (s : Session) : Session :=
  mkSession (modeScreen s) (decryptStep s) v (message s) (cipher s) (pad s)
    (status s) (showEncryptResults s) (countdown s) (interval s).
Definition setMessage (v : jsstring) (s : Session) : Session :=
  mkSession (modeScreen s) (decryptStep s) (padInput s) v (cipher s) (pad s)
    (status s) (showEncryptResults s) (countdown s) (interval s).
Definition setCipher (v : jsstring) (s : Session) : Session :=
  mkSession (modeScreen s) (decryptStep s) (padInput s) (message s) v (pad s)
    (status s) (showEncryptResults s) (countdown s) (interval s).
Definition setPad (v : jsstring) (s : Session) : Session :=
  mkSession (modeScreen s) (decryptStep s) (padInput s) (message s) (cipher s) v
    (status s) (showEncryptResults s) (countdown s) (interval s).
Definition setStatus (v : Status) (s : Session) : Session :=
  mkSession (modeScreen s) (decryptStep s) (padInput s) (message s) (cipher s) (pad s)
    v (showEncryptResults s) (countdown s) (interval s).
Definition setShowEncryptResults (v : bool) (s : Session) : Session :=
  mkSession (modeScreen s) (decryptStep s) (padInput s) (message s) (cipher s) (pad s)
    (status s) v (countdown s) (interval s).
Definition setCountdown (v : option Z) (s : Session) : Session :=
  mkSession (modeScreen s) (decryptStep s) (padInput s) (message s) (cipher s) (pad s)
    (status s) (showEncryptResults s) v (interval s).

(** [setInterval] and [clearInterval] of the countdown effect. *)
Definition setInterval (s : Session) : Session :=
  mkSession (modeScreen s) (decryptStep s) (padInput s) (message s) (cipher s) (pad s)
    (status s) (showEncryptResults s) (countdown s) true.
Definition clearInterval (s : Session) : Session :=
  mkSession (modeScreen s) (decryptStep s) (padInput s) (message s) (cipher s) (pad s)
    (status s) (showEncryptResults s) (countdown s) false.

Definition setOK (t : string) : Session -> Session := setStatus (mkStatus t (Some ok)).
Definition setWarn (t : string) : Session -> Session := setStatus (mkStatus t (Some warn)).
Definition setErr (t : string) : Session -> Session := setStatus (mkStatus t (Some err)).

Definition Listo : Status := mkStatus "Listo." None.

(** The values of the [useState] calls. *)
Definition initialState : Session :=
  mkSession None askPad [] [] [] [] Listo false None false.

Definition resetAll (s : Session) : Session :=
  setStatus Listo
    (setCountdown None
      (setShowEncryptResults false
        (setDecryptStep askPad
          (setPadInput [] (setPad [] (setCipher [] (setMessage [] s))))))).

(** [catch (e) { setErr(e.message || String(e)); }] *)
Definition exn_text (e : exn) : string :=
  if decide (emessage e = EmptyString) then ename e else emessage e.

Definition try_catch (body : result Session) (s : Session) : Session :=
  match body with
  | Ok s' => s'
  | Throw e => setErr (exn_text e) s
  end.

Definition length_mismatch_message (c p : jsstring) : string :=
  "El pad debe tener la MISMA longitud. (cifrado=" +:+ pretty (length c) +:+
  ", pad=" +:+ pretty (length p) +:+ ")".

Section Component.
Context {U : UnicodeData}.

Definition alphabet : jsstring := UNIFIED_ALPHABET.
Definition modulus : number := js_length alphabet.

Definition onEncrypt_body (crypto : Crypto) (s : Session) : result Session :=
  let norm := normalizeInput (message s) alphabet in
  _ ← throw_if (bool_decide (length norm = 0%nat)) "Escribe el mensaje que quieres cifrar.";
  newPad ← randomPad crypto (length norm) alphabet;
  let mi := toIndices norm alphabet in
  let pi := toIndices newPad alphabet in
  let ci := otpAdd mi pi modulus in
  let ct := fromIndices ci alphabet in
  mret (setOK "Cifrado listo. Copia el pad y el texto cifrado."
         (setShowEncryptResults true (setCipher ct (setPad newPad s)))).

Definition onEncrypt (crypto : Crypto) (s : Session) : Session :=
  try_catch (onEncrypt_body crypto s) s.

Definition onAcceptPadForDecrypt_body (s : Session) : result Session :=
  let pNorm := normalizeInput (padInput s) alphabet in
  _ ← throw_if (bool_decide (length pNorm = 0%nat)) "Pega primero el PAD / Clave.";
  mret (setOK "PAD listo. Ahora pega el texto cifrado y presiona Descifrar."
         (setDecryptStep ready (setPad pNorm s))).

Definition onAcceptPadForDecrypt (s : Session) : Session :=
  try_catch (onAcceptPadForDecrypt_body s) s.

Definition onDecrypt_body (s : Session) : result Session :=
  _ ← throw_if (match decryptStep s with ready => false | askPad => true end)
        "Primero proporciona el PAD / Clave.";
  let c := normalizeInput (cipher s) alphabet in
  let p := pad s in
  _ ← throw_if (bool_decide (length c = 0%nat)) "Pega el texto cifrado.";
  _ ← throw_if (bool_decide (length c ≠ length p)) (length_mismatch_message c p);
  let ci := toIndices c alphabet in
  let pi := toIndices p alphabet in
  let mi := otpSub ci pi modulus in
  let plain := fromIndices mi alphabet in
  mret (setCountdown (Some (5 * 60))
         (setOK "Descifrado recuperado. El mensaje se limpiará automáticamente en 5 minutos."
           (setMessage plain s))).

Definition onDecrypt (s : Session) : Session :=
  try_catch (onDecrypt_body s) s.

Definition onClearAll (s : Session) : Session := resetAll s.

(** The callback of the interval: [setCountdown((s) => (s ?? 1) - 1)]. *)
Definition onInterval (s : Session) : Session :=
  setCountdown (Some (default 1 (countdown s) - 1)) s.

(** *** Effects

    After a render React runs the effects whose dependencies changed: first
    their cleanups, then their bodies in the order of declaration.  State
    set by an effect is applied by the next render, which runs the effects
    again.  A commit is taken as one step: no timer callback runs between a
    handler and the effects of its render.  [countdownEffect] returns the
    session and whether it called [resetAll]. *)

Definition countdownEffect (s : Session) : Session * bool :=
  match countdown s with
  | None => (s, false)
  | Some n => if n <=? 0 then (s, true) else (setInterval s, false)
  end.

Fixpoint flushEffects (fuel : nat) (prev cur : Session) : Session :=
  match fuel with
  | O => cur
  | S fuel' =>
      let modeChanged := bool_decide (modeScreen prev ≠ modeScreen cur) in
      let countdownChanged := bool_decide (countdown prev ≠ countdown cur) in
      let s1 := if countdownChanged then clearInterval cur else cur in
      let '(s2, reset) := if countdownChanged then countdownEffect s1 else (s1, false) in
      if modeChanged || reset then flushEffects fuel' s2 (resetAll s2) else s2
  end.

(** Two rounds settle every commit (lemma [flushEffects_settles]). *)
Definition commit (prev cur : Session) : Session := flushEffects 2 prev cur.

(** On mount every effect runs once: the mode effect resets the state, the
    countdown effect finds [null]. *)
Definition mount : Session := resetAll initialState.

(** *** Events *)

Inductive Event : Type :=
| ClickMode (m : option Mode)
| ChangePadInput (v : jsstring)
| ChangeMessage (v : jsstring)
| ChangeCipher (v : jsstring)
| ClickEncrypt (crypto : Crypto)
| ClickAcceptPad
| ClickDecrypt
| ClickClear
| Tick.

(** The timer event reaches the callback only while the interval is
    pending. *)
Definition handle (e : Event) (s : Session) : Session :=
  match e with
  | ClickMode m => setModeScreen m s
  | ChangePadInput v => setPadInput v s
  | ChangeMessage v => setMessage v s
  | ChangeCipher v => setCipher v s
  | ClickEncrypt crypto => onEncrypt crypto s
  | ClickAcceptPad => onAcceptPadForDecrypt s
  | ClickDecrypt => onDecrypt s
  | ClickClear => onClearAll s
  | Tick => if interval s then onInterval s else s
  end.

Definition dispatch (e : Event) (s : Session) : Session :=
  commit s (handle e s).

Definition run (es : list Event) (s : Session) : Session :=
  fold_left (fun s e => dispatch e s) es s.

Definition ticks (n : nat) (s : Session) : Session :=
  Nat.iter n (dispatch Tick) s.

End Component.

(** *** The states of the session

    The state names of the specification, read off the branches of the
    render: no mode chosen shows the mode chooser; decrypt mode shows the pad
    entry until a pad is accepted, then the ciphertext entry, with the
    countdown once it is set; encrypt mode shows the message entry, with the
    results once they are computed. *)

Inductive Phase : Type :=
| Idle
| MessageEntry
| Encrypted
| AwaitingPad
| PadAccepted
| DecryptedActive (ttl : Z).

Definition phase (s : Session) : Phase :=
  match modeScreen s with
  | None => Idle
  | Some encrypt => if showEncryptResults s then Encrypted else MessageEntry
  | Some decrypt =>
      match decryptStep s with
      | askPad => AwaitingPad
      | ready =>
          match countdown s with
          | None => PadAccepted
          | Some n => DecryptedActive n
          end
      end
  end.

(** The interval is pending exactly while a positive countdown is set. *)
Definition settled (s : Session) : Prop :=
  match countdown s with
  | None => interval s = false
  | Some n => 0 < n /\ interval s = true
  end.

(** ** An excerpt of the Unicode Character Database

    The tables for Basic Latin, Latin-1 Supplement (U+0000 to U+00FF) and
    the Combining Diacritical Marks (U+0300 to U+036F), with the three code
    points outside these blocks that the uppercase mapping reaches (U+0178,
    U+0399, U+039C).  Code points that the excerpt does not cover are
    entered as caseless starters without decomposition. *)

Definition latin1_uppercase (c : N) : list N :=
  match c with
  | 0xB5 => [0x39C]
  | 0xDF => [0x53; 0x53]
  | 0xF7 => [0xF7]
  | 0xFF => [0x178]
  | 0x345 => [0x399]
  | _ =>
      if ((0x61 <=? c) && (c <=? 0x7A) || (0xE0 <=? c) && (c <=? 0xFE))%N
      then [c - 0x20]
      else [c]
  end%N.

Definition latin1_decomposition (c : N) : list N :=
  match c with
  | 0xC0 => [0x41; 0x300]
  | 0xC1 => [0x41; 0x301]
  | 0xC2 => [0x41; 0x302]
  | 0xC3 => [0x41; 0x303]
  | 0xC4 => [0x41; 0x308]
  | 0xC5 => [0x41; 0x30A]
  | 0xC7 => [0x43; 0x327]
  | 0xC8 => [0x45; 0x300]
  | 0xC9 => [0x45; 0x301]
  | 0xCA => [0x45; 0x302]
  | 0xCB => [0x45; 0x308]
  | 0xCC => [0x49; 0x300]
  | 0xCD => [0x49; 0x301]
  | 0xCE => [0x49; 0x302]
  | 0xCF => [0x49; 0x308]
  | 0xD1 => [0x4E; 0x303]
  | 0xD2 => [0x4F; 0x300]
  | 0xD3 => [0x4F; 0x301]
  | 0xD4 => [0x4F; 0x302]
  | 0xD5 => [0x4F; 0x303]
  | 0xD6 => [0x4F; 0x308]
  | 0xD9 => [0x55; 0x300]
  | 0xDA => [0x55; 0x301]
  | 0xDB => [0x55; 0x302]
  | 0xDC => [0x55; 0x308]
  | 0xDD => [0x59; 0x301]
  | 0xE0 => [0x61; 0x300]
  | 0xE1 => [0x61; 0x301]
  | 0xE2 => [0x61; 0x302]
  | 0xE3 => [0x61; 0x303]
  | 0xE4 => [0x61; 0x308]
  | 0xE5 => [0x61; 0x30A]
  | 0xE7 => [0x63; 0x327]
  | 0xE8 => [0x65; 0x300]
  | 0xE9 => [0x65; 0x301]
  | 0xEA => [0x65; 0x302]
  | 0xEB => [0x65; 0x308]
  | 0xEC => [0x69; 0x300]
  | 0xED => [0x69; 0x301]
  | 0xEE => [0x69; 0x302]
  | 0xEF => [0x69; 0x308]
  | 0xF1 => [0x6E; 0x303]
  | 0xF2 => [0x6F; 0x300]
  | 0xF3 => [0x6F; 0x301]
  | 0xF4 => [0x6F; 0x302]
  | 0xF5 => [0x6F; 0x303]
  | 0xF6 => [0x6F; 0x308]
  | 0xF9 => [0x75; 0x300]
  | 0xFA => [0x75; 0x301]
  | 0xFB => [0x75; 0x302]
  | 0xFC => [0x75; 0x308]
  | 0xFD => [0x79; 0x301]
  | 0xFF => [0x79; 0x308]
  | 0x178 => [0x59; 0x308]
  | 0x340 => [0x300]
  | 0x341 => [0x301]
  | 0x343 => [0x313]
  | 0x344 => [0x308; 0x301]
  | _ => [c]
  end%N.

Definition latin1_combining_class (c : N) : N :=
  match c with
  | 0x334 | 0x335 | 0x336 | 0x337 | 0x338 => 1
  | 0x321 | 0x322 | 0x327 | 0x328 => 202
  | 0x31B => 216
  | 0x316 | 0x317 | 0x318 | 0x319 | 0x31C | 0x31D | 0x31E | 0x31F | 0x320 | 0x323 | 0x324 | 0x325 | 0x326 | 0x329 | 0x32A | 0x32B | 0x32C | 0x32D | 0x32E | 0x32F | 0x330 | 0x331 | 0x332 | 0x333 | 0x339 | 0x33A | 0x33B | 0x33C | 0x347 | 0x348 | 0x349 | 0x34D | 0x34E | 0x353 | 0x354 | 0x355 | 0x356 | 0x359 | 0x35A => 220
  | 0x315 | 0x31A | 0x358 => 232
  | 0x35C | 0x35F | 0x362 => 233
  | 0x35D | 0x35E | 0x360 | 0x361 => 234
  | 0x345 => 240
  | 0x34F => 0
  | _ => if is_diacritic c then 230 else 0
  end%N.

#[global] Instance Latin1 : UnicodeData := {
  uppercase_mapping := latin1_uppercase;
  canonical_decomposition := latin1_decomposition;
  combining_class := latin1_combining_class
}.

(** ** Scenarios

    Sessions of the decrypt flow, run on the excerpt: the pad ABCDEFGHIJ is
    accepted; then a ciphertext of five symbols, a ciphertext without any
    symbol of the alphabet, or a ciphertext of ten symbols is entered; the
    last one is decrypted, and 150 ticks pass. *)

Definition pad_accepted : Session :=
  run [ClickMode (Some decrypt); ChangePadInput (lit "ABCDEFGHIJ"); ClickAcceptPad] mount.

Definition short_cipher_entered : Session :=
  dispatch (ChangeCipher (lit "hello")) pad_accepted.

Definition blank_cipher_entered : Session :=
  dispatch (ChangeCipher (lit "~~~")) pad_accepted.

Definition decrypted : Session :=
  run [ChangeCipher (lit "HPND.Q0TLX"); ClickDecrypt] pad_accepted.

Definition decrypted_150 : Session :=
  ticks 150 decrypted.

(** The message B is encrypted with a source that delivers the word 13; the
    pad and the ciphertext shown are then pasted into the decrypt flow. *)
Definition encrypted_B : Session :=
  run [ClickMode (Some encrypt); ChangeMessage (lit "B");
       ClickEncrypt {| random_word := fun _ => 13; quota_message := EmptyString |}]
      mount.

Definition decrypted_B : Session :=
  run [ClickMode None; ClickMode (Some decrypt);
       ChangePadInput (pad encrypted_B); ClickAcceptPad;
       ChangeCipher (cipher encrypted_B); ClickDecrypt]
      encrypted_B.

(** The facts of the Unicode Character Database that the proofs use: Basic
    Latin is canonically indecomposable and made of starters, its characters
    other than the lowercase letters are their own uppercase; a full
    decomposition contains no decomposable character; U+00D1 decomposes into
    N and the combining tilde, and is the uppercase of U+00F1. *)
Class UnicodeFacts (U : UnicodeData) : Prop := {
  basic_latin_uppercase : forall c : N,
    (c < 0x80)%N -> ~ (0x61 <= c <= 0x7A)%N -> uppercase_mapping c = [c];
  basic_latin_decomposition : forall c : N,
    (c < 0x80)%N -> canonical_decomposition c = [c];
  basic_latin_class : forall c : N,
    (c < 0x80)%N -> combining_class c = 0%N;
  decomposition_full : forall c d : N,
    d ∈ canonical_decomposition c -> canonical_decomposition d = [d];
  n_tilde_decomposition :
    canonical_decomposition N_TILDE = [0x4E; 0x303]%N;
  n_tilde_uppercase :
    uppercase_mapping 0xF1%N = [N_TILDE] /\ uppercase_mapping N_TILDE = [N_TILDE]
}.

(** ** Definitions for the further properties *)

(** The uppercase of a Basic Latin character. *)
Definition ascii_uppercase (c : N) : N :=
  if ((0x61 <=? c) && (c <=? 0x7A))%N then (c - 0x20)%N else c.

(** [pad.trim()]: the white space and line terminator code points of
    ECMAScript are removed from both ends. *)
Definition is_white_space (c : N) : bool :=
  bool_decide (c ∈ [0x9; 0xA; 0xB; 0xC; 0xD; 0x20; 0xA0; 0x1680; 0x2000; 0x2001;
                    0x2002; 0x2003; 0x2004; 0x2005; 0x2006; 0x2007; 0x2008; 0x2009;
                    0x200A; 0x2028; 0x2029; 0x202F; 0x205F; 0x3000; 0xFEFF]%N).

Fixpoint trimStart (s : jsstring) : jsstring :=
  match s with
  | c :: rest => if is_white_space c then trimStart rest else s
  | [] => []
  end.

Definition trimEnd (s : jsstring) : jsstring := rev (trimStart (rev s)).

Definition trim (s : jsstring) : jsstring := trimEnd (trimStart s).

(** [downloadText(filename, content)] hands a text file to the browser; the
    file is the output of the handler.  To do so it appends the anchor of the
    main screen to the body and removes it again; the anchor is not part of
    the session, and the export is not among the events of [Event], so a run
    of events is a run without export. *)
Record Download : Type := mkDownload { filename : string; content : jsstring }.

Definition onExportPad (s : Session) : Session * option Download :=
  let content := trim (pad s) in
  if bool_decide (content = [])
  then (setWarn "No hay pad para exportar." s, None)
  else (setOK "Pad exportado como pad.txt" s, Some (mkDownload "pad.txt" content)).

(** What every reachable session satisfies besides [settled]: a countdown
    is at most 300 and only set once a pad is accepted, the stored pad is
    written over the alphabet, and an accepted pad is not empty. *)
Definition pad_invariant (s : Session) : Prop :=
  (forall n : Z, countdown s = Some n -> n <= 300 /\ decryptStep s = ready) /\
  Forall (fun c => c ∈ UNIFIED_ALPHABET) (pad s) /\
  (decryptStep s = ready -> pad s <> []).

(** More scenarios: a message typed in the encrypt flow, a message of 16385
    letters, and two encryptions whose random words give a pad that begins
    with the space symbol and a pad made of space symbols only. *)
Definition message_entered : Session :=
  run [ClickMode (Some encrypt); ChangeMessage (lit "Hola, mundo")] mount.

Definition long_message_entered : Session :=
  run [ClickMode (Some encrypt); ChangeMessage (replicate (Z.to_nat 16385) 0x41%N)] mount.

Definition words_4_9 : Crypto :=
  {| random_word := fun i => 4 + 9 * Z.of_nat i; quota_message := EmptyString |}.

Definition words_space_first : Crypto :=
  {| random_word := fun i => if (i =? 0)%nat then 37 else 64 * 1000 + 5;
     quota_message := EmptyString |}.

Definition words_space_only : Crypto :=
  {| random_word := fun _ => 37 + 64; quota_message := EmptyString |}.

(** The self-tests of the second effect.  A [console.assert] whose
    condition fails writes to the console and does not throw: the effect is
    given by the conditions of its four assertions, or by the exception that
    a call of [randomPad] throws.  Each call of [getRandomValues] has its
    own words. *)
Record SelfTests : Type := mkSelfTests {
  roundtrip_holds : bool;
  normalization_holds : bool;
  pad_length_holds : bool;
  signs_hold : bool
}.

Section SelfTest.
Context {U : UnicodeData}.

Definition selfTests (crypto1 crypto2 : Crypto) : result SelfTests :=
  let A := alphabet in
  let msg := lit "HOLA MUNDO" in
  padT ← randomPad crypto1 (length msg) A;
  let mi := toIndices msg A in
  let pi := toIndices padT A in
  let ci := otpAdd mi pi (js_length A) in
  let back := otpSub ci pi (js_length A) in
  let test1 := bool_decide (fromIndices back A = msg) in
  let norm :=
    normalizeInput (lit "canci" ++ [0xF3%N] ++ lit "n NI" ++ [N_TILDE] ++ lit "O 123 !") A in
  let test2 := bool_decide (norm = lit "CANCION NI" ++ [N_TILDE] ++ lit "O 123 !") in
  rnd ← randomPad crypto2 10 A;
  let test3 := bool_decide (length rnd = 10%nat) in
  let sample := lit "@#$/+*<>[]{}()" in
  let normSig := normalizeInput sample A in
  let test4 := bool_decide (normSig = sample) in
  mret (mkSelfTests test1 test2 test3 test4).

End SelfTest.

(** [String.prototype.padStart] with a filler of one character. *)
Definition padStart (target : nat) (fill : ascii) (s : string) : string :=
  Nat.iter (target - String.length s) (String fill) s.

(** The notice under the plaintext: the section of the decrypt mode is
    rendered once a pad is accepted, the plaintext block when the message is
    not empty, and the notice when the countdown is not [null]. *)
Definition countdownNotice (s : Session) : option string :=
  match modeScreen s, decryptStep s with
  | Some decrypt, ready =>
      if bool_decide (message s = []) then None
      else match countdown s with
           | None => None
           | Some _ =>
               Some ("El contenido se limpiará en " +:+
                     pretty (default 0 (countdown s) / 60) +:+ ":" +:+
                     padStart 2 "0" (pretty (Z.rem (default 0 (countdown s)) 60)) +:+
                     " min.")
           end
  | _, _ => None
  end.

(** The character of a decimal digit. *)
Definition digit (d : Z) : ascii := ascii_of_N (48 + Z.to_N d).

(** * Properties *)

(** ** Cipher engine *)

Lemma otpAdd_length (m p : list number) (md : number) :
  length (otpAdd m p md) = length m.
Proof. unfold otpAdd. apply length_imap. Qed.

Lemma otpSub_length (c p : list number) (md : number) :
  length (otpSub c p md) = length c.
Proof. unfold otpSub. apply length_imap. Qed.

Lemma otpAdd_lookup (m p : list number) (md : number) (i : nat) :
  otpAdd m p md !! i =
  (fun v => js_rem (js_add v (ToNumber (p !! i))) md) <$> m !! i.
Proof. unfold otpAdd. apply list_lookup_imap. Qed.

Lemma otpSub_lookup (c p : list number) (md : number) (i : nat) :
  otpSub c p md !! i =
  (fun v => js_rem (js_add (js_rem (js_sub v (ToNumber (p !! i))) md) md) md)
    <$> c !! i.
Proof. unfold otpSub. apply list_lookup_imap. Qed.

Lemma is_index_Int (M : Z) (v : number) :
  is_index M v -> exists z, v = Int z /\ 0 <= z < M.
Proof. destruct v as [z|]; simpl; [eauto | tauto]. Qed.

(** One position of encode followed by decode. *)
Lemma add_sub_cancel (M x y : Z) :
  0 <= x < M -> 0 <= y < M ->
  js_rem (js_add (js_rem (js_sub (js_rem (js_add (Int x) (Int y)) (Int M)) (Int y))
                    (Int M)) (Int M)) (Int M) = Int x.
Proof.
  intros Hx Hy. simpl.
  assert (HM : (M =? 0) = false) by (apply Z.eqb_neq; lia).
  rewrite HM. simpl. rewrite HM. simpl. rewrite HM. f_equal.
  rewrite (Z.rem_mod_nonneg (x + y) M) by lia.
  destruct (Z_lt_ge_dec (x + y) M) as [Hlt|Hge].
  - rewrite (Z.mod_small (x + y) M) by lia.
    replace (x + y - y) with x by lia.
    rewrite (Z.rem_small x M) by lia.
    rewrite (Z.rem_mod_nonneg (x + M) M) by lia.
    replace (x + M) with (x + 1 * M) by lia.
    rewrite Z.mod_add by lia. apply Z.mod_small; lia.
  - assert (Hr : (x + y) mod M = x + y - M).
    { symmetry. apply (Z.mod_unique _ _ 1); lia. }
    rewrite Hr. replace (x + y - M - y) with (- (M - x)) by lia.
    rewrite Z.rem_opp_l by lia.
    destruct (Z.eq_dec x 0) as [->|Hx0].
    + rewrite Z.sub_0_r, Z.rem_same by lia. simpl.
      apply Z.rem_same; lia.
    + rewrite (Z.rem_small (M - x) M) by lia.
      replace (- (M - x) + M) with x by lia.
      apply Z.rem_small; lia.
Qed.

(** The second modulus of decode always lands in [0, M). *)
Lemma sub_in_range (M x y : Z) :
  0 < M ->
  is_index M (js_rem (js_add (js_rem (js_sub (Int x) (Int y)) (Int M)) (Int M)) (Int M)).
Proof.
  intros HM. simpl.
  assert (HM0 : (M =? 0) = false) by (apply Z.eqb_neq; lia).
  rewrite HM0. simpl. rewrite HM0. simpl.
  assert (Hb : - M < Z.rem (x - y) M < M).
  { pose proof (Z.rem_bound_abs (x - y) M ltac:(lia)). lia. }
  rewrite Z.rem_mod_nonneg by lia.
  apply Z.mod_pos_bound; lia.
Qed.

(** C1: for equal-length index sequences with values in [0, M), decoding
    the encoding gives back the message, and every value that decode
    produces from index sequences is again in [0, M): adding M before the
    second remainder leaves no negative result. *)
Theorem otp_decode_encode (M : Z) (m p : list number) :
  0 < M ->
  length m = length p ->
  IndexSequence M m ->
  IndexSequence M p ->
  otpSub (otpAdd m p (Int M)) p (Int M) = m /\
  IndexSequence M (otpSub m p (Int M)).
Proof.
  intros HM Hlen Hm Hp. split.
  - apply list_eq. intros i.
    rewrite otpSub_lookup, otpAdd_lookup.
    destruct (m !! i) as [v|] eqn:Hv; simpl; [|reflexivity].
    assert (Hw : is_Some (p !! i)).
    { apply lookup_lt_is_Some_2. rewrite <- Hlen. eapply lookup_lt_Some, Hv. }
    destruct Hw as [w Hw]. rewrite Hw. simpl.
    pose proof (Forall_lookup_1 _ _ _ _ Hm Hv) as Hx.
    pose proof (Forall_lookup_1 _ _ _ _ Hp Hw) as Hy.
    apply is_index_Int in Hx as (x & -> & Hx).
    apply is_index_Int in Hy as (y & -> & Hy).
    f_equal. apply add_sub_cancel; assumption.
  - apply Forall_lookup_2. intros i v.
    rewrite otpSub_lookup.
    destruct (m !! i) as [a|] eqn:Ha; simpl; [|discriminate].
    assert (Hb : is_Some (p !! i)).
    { apply lookup_lt_is_Some_2. rewrite <- Hlen. eapply lookup_lt_Some, Ha. }
    destruct Hb as [b Hb]. rewrite Hb. simpl. intros [= <-].
    pose proof (Forall_lookup_1 _ _ _ _ Hm Ha) as Hx.
    pose proof (Forall_lookup_1 _ _ _ _ Hp Hb) as Hy.
    apply is_index_Int in Hx as (x & -> & Hx).
    apply is_index_Int in Hy as (y & -> & Hy).
    apply sub_in_range; assumption.
Qed.

Lemma otp_decode_encode_witness :
  otpSub (otpAdd [Int 7; Int 15; Int 63] [Int 60; Int 0; Int 63] (Int 64))
         [Int 60; Int 0; Int 63] (Int 64) = [Int 7; Int 15; Int 63] /\
  IndexSequence 64 (otpSub [Int 7; Int 15; Int 63] [Int 60; Int 0; Int 63] (Int 64)).
Proof.
  apply (otp_decode_encode 64 [Int 7; Int 15; Int 63] [Int 60; Int 0; Int 63]).
  - lia.
  - reflexivity.
  - repeat constructor; simpl; lia.
  - repeat constructor; simpl; lia.
Defined.

(** ** Normalizer *)

Lemma includes_spec (a : jsstring) (c : N) : includes a c = true <-> c ∈ a.
Proof. unfold includes. apply bool_decide_eq_true. Qed.

(** The loop [for (const ch of s) if (alphabet.includes(ch)) out += ch]
    is a filter. *)
Lemma filter_loop (a s out : jsstring) :
  fold_left (fun out ch => if includes a ch then out ++ [ch] else out) s out =
  out ++ filter (fun c => c ∈ a) s.
Proof.
  revert out. induction s as [|c s IH]; intros out; cbn [fold_left].
  - rewrite filter_nil. symmetry. apply app_nil_r.
  - rewrite IH. unfold includes. rewrite filter_cons.
    destruct (decide (c ∈ a)) as [Hc|Hc].
    + rewrite bool_decide_eq_true_2 by assumption. rewrite <- app_assoc. reflexivity.
    + rewrite bool_decide_eq_false_2 by assumption. reflexivity.
Qed.

(** The characters of the alphabet other than U+00D1 are Basic Latin
    characters that are neither lowercase letters nor diacritics. *)
Lemma alphabet_basic_latin (c : N) :
  c ∈ UNIFIED_ALPHABET ->
  c = N_TILDE \/ ((c < 0x80)%N /\ ~ (0x61 <= c <= 0x7A)%N /\ is_diacritic c = false).
Proof.
  revert c. apply Forall_forall.
  apply (bool_decide_unpack _). vm_compute. exact I.
Qed.

Section Normalizer.
Context {U : UnicodeData}.

Lemma reorder_insert_elem (x c : N) (racc : list N) :
  x ∈ reorder_insert c racc <-> x = c \/ x ∈ racc.
Proof.
  induction racc as [|d rest IH]; simpl.
  - rewrite list_elem_of_singleton. rewrite elem_of_nil. tauto.
  - destruct (_ && _)%N.
    + rewrite !elem_of_cons, IH. tauto.
    + rewrite !elem_of_cons. tauto.
Qed.

Lemma canonical_order_elem (x : N) (s : jsstring) :
  x ∈ canonical_order s <-> x ∈ s.
Proof.
  unfold canonical_order. rewrite list_elem_of_In, <- in_rev, <- list_elem_of_In.
  assert (H : forall racc,
    x ∈ fold_left (fun racc c => reorder_insert c racc) s racc <-> x ∈ s \/ x ∈ racc).
  { induction s as [|c s IH]; intros racc; simpl.
    - rewrite elem_of_nil. tauto.
    - rewrite IH, reorder_insert_elem, elem_of_cons. tauto. }
  rewrite H, elem_of_nil. tauto.
Qed.

(** Canonical ordering moves non-starters only: a filter that keeps
    starters alone sees the same sequence before and after. *)
Lemma reorder_insert_filter (P : N -> Prop) `{!forall c, Decision (P c)}
    (c : N) (racc : list N) :
  (P c -> combining_class c = 0%N) ->
  filter P (rev (reorder_insert c racc)) = filter P (rev racc) ++ filter P [c].
Proof.
  intros Hc. induction racc as [|d rest IH]; simpl.
  - reflexivity.
  - destruct (0 <? combining_class c)%N eqn:Hpos; simpl.
    + destruct (combining_class c <? combining_class d)%N; simpl.
      * rewrite !filter_app, IH.
        assert (Hn : ~ P c).
        { intros HP. rewrite (Hc HP) in Hpos. discriminate. }
        rewrite (filter_cons_False P c []) by assumption.
        rewrite filter_nil, !app_nil_r. reflexivity.
      * rewrite !filter_app. reflexivity.
    + rewrite !filter_app. reflexivity.
Qed.

Lemma canonical_order_filter (P : N -> Prop) `{!forall c, Decision (P c)}
    (s : jsstring) :
  (forall c, c ∈ s -> P c -> combining_class c = 0%N) ->
  filter P (canonical_order s) = filter P s.
Proof.
  intros Hs. unfold canonical_order.
  assert (Hfold : forall racc,
    filter P (rev (fold_left (fun racc c => reorder_insert c racc) s racc)) =
    filter P (rev racc) ++ filter P s).
  { induction s as [|c s IH]; intros racc; simpl.
    - rewrite filter_nil. symmetry. apply app_nil_r.
    - rewrite IH.
      + rewrite reorder_insert_filter.
        * change (c :: s) with ([c] ++ s).
          rewrite (filter_app P [c] s), app_assoc. reflexivity.
        * apply Hs. left.
      + intros c' Hc'. apply Hs. right. assumption. }
  rewrite Hfold. reflexivity.
Qed.

(** The pipeline of [normalizeInput] as two filters over the reordered
    decomposition of the uppercased input. *)
Lemma normalizeInput_unfold (x a : jsstring) :
  normalizeInput x a =
  filter (fun c => c ∈ a)
    (filter (fun c => is_diacritic c = false)
      (canonical_order (toUpperCase x ≫= canonical_decomposition))).
Proof. unfold normalizeInput. rewrite filter_loop. reflexivity. Qed.

Lemma normalizeInput_elem (x a : jsstring) (c : N) :
  c ∈ normalizeInput x a ->
  c ∈ a /\ is_diacritic c = false /\
  exists u d, u ∈ x /\ d ∈ uppercase_mapping u /\ c ∈ canonical_decomposition d.
Proof.
  rewrite normalizeInput_unfold, !list_elem_of_filter, canonical_order_elem.
  intros (Ha & Hd & Hc). split; [assumption|]. split; [assumption|].
  apply list_elem_of_bind in Hc as (d & Hc & Hd').
  unfold toUpperCase in Hd'. apply list_elem_of_bind in Hd' as (u & Hd' & Hu).
  exists u, d. auto.
Qed.

End Normalizer.

Section NormalizerFacts.
Context {U : UnicodeData} {HU : UnicodeFacts U}.

Lemma decomposition_no_n_tilde (c : N) : N_TILDE ∉ canonical_decomposition c.
Proof.
  intros Hin. apply decomposition_full in Hin.
  rewrite n_tilde_decomposition in Hin. discriminate.
Qed.

(** Whatever the alphabet, the normalizer never outputs U+00D1. *)
Lemma normalizeInput_no_n_tilde (x a : jsstring) : N_TILDE ∉ normalizeInput x a.
Proof.
  intros Hin. apply normalizeInput_elem in Hin as (_ & _ & u & d & _ & _ & Hd).
  exact (decomposition_no_n_tilde d Hd).
Qed.

(** With the fixed alphabet the two filters can be applied to the
    decomposition before it is reordered. *)
Lemma normalizeInput_filter (x : jsstring) :
  normalizeInput x UNIFIED_ALPHABET =
  filter (fun c => c ∈ UNIFIED_ALPHABET /\ is_diacritic c = false)
    (toUpperCase x ≫= canonical_decomposition).
Proof.
  rewrite normalizeInput_unfold, list_filter_filter.
  apply canonical_order_filter.
  intros c Hc [Ha _].
  destruct (alphabet_basic_latin c Ha) as [->|(Hlt & _ & _)].
  - apply list_elem_of_bind in Hc as (d & Hc & _).
    destruct (decomposition_no_n_tilde d Hc).
  - apply basic_latin_class, Hlt.
Qed.

Lemma normalizeInput_app (x y : jsstring) :
  normalizeInput (x ++ y) UNIFIED_ALPHABET =
  normalizeInput x UNIFIED_ALPHABET ++ normalizeInput y UNIFIED_ALPHABET.
Proof.
  rewrite !normalizeInput_filter. unfold toUpperCase.
  rewrite !bind_app, filter_app. reflexivity.
Qed.

(** A string of alphabet characters other than U+00D1 is left as it is. *)
Lemma normalizeInput_fixed (y : jsstring) :
  Forall (fun c => c ∈ UNIFIED_ALPHABET /\ c <> N_TILDE) y ->
  normalizeInput y UNIFIED_ALPHABET = y.
Proof.
  intros Hy. rewrite normalizeInput_filter. unfold toUpperCase.
  induction Hy as [|c y [Ha Hne] Hy IH].
  - reflexivity.
  - destruct (alphabet_basic_latin c Ha) as [?|(Hlt & Hlow & Hdia)]; [contradiction|].
    rewrite bind_cons, (basic_latin_uppercase c Hlt Hlow).
    change ([c] ++ y ≫= uppercase_mapping) with (c :: (y ≫= uppercase_mapping)).
    rewrite bind_cons, (basic_latin_decomposition c Hlt).
    change ([c] ++ ?l) with (c :: l).
    rewrite filter_cons_True by (split; assumption).
    f_equal. exact IH.
Qed.

Lemma normalizeInput_plain (x : jsstring) :
  Forall (fun c => c ∈ UNIFIED_ALPHABET /\ c <> N_TILDE)
    (normalizeInput x UNIFIED_ALPHABET).
Proof.
  apply Forall_forall. intros c Hc. split.
  - apply normalizeInput_elem in Hc. tauto.
  - intros ->. exact (normalizeInput_no_n_tilde x _ Hc).
Qed.

Lemma normalizeInput_n_tilde :
  normalizeInput [N_TILDE] UNIFIED_ALPHABET = lit "N" /\
  normalizeInput [0xF1%N] UNIFIED_ALPHABET = lit "N".
Proof.
  destruct n_tilde_uppercase as [Hlow Hup].
  assert (Hone : forall (f : N -> list N) (c : N), [c] ≫= f = f c).
  { intros f c. rewrite bind_cons. apply app_nil_r. }
  rewrite !normalizeInput_filter. unfold toUpperCase.
  rewrite !Hone, Hlow, Hup, !Hone, n_tilde_decomposition.
  split; vm_compute; reflexivity.
Qed.

End NormalizerFacts.

Lemma N_forall_below (P : N -> Prop) (n : nat) :
  Forall P (N.of_nat <$> seq 0 n) -> forall c : N, (c < N.of_nat n)%N -> P c.
Proof.
  intros HP c Hc. rewrite Forall_forall in HP. apply HP.
  apply list_elem_of_fmap. exists (N.to_nat c). split; [lia|].
  apply elem_of_seq. lia.
Qed.

Ltac split_code_point p :=
  first [ reflexivity
        | destruct p as [p|p|];
          [ split_code_point p | split_code_point p | first [reflexivity | lia] ] ].

Lemma latin1_decomposition_above (c : N) :
  (0x400 <= c)%N -> latin1_decomposition c = [c].
Proof.
  intros Hc. destruct c as [|p]; [lia|].
  unfold latin1_decomposition. split_code_point p.
Qed.

(** The excerpt satisfies the facts. *)
Lemma Latin1_facts : UnicodeFacts Latin1.
Proof.
  split; simpl.
  - apply (N_forall_below
             (fun c => ~ (0x61 <= c <= 0x7A)%N -> latin1_uppercase c = [c]) 128).
    apply (bool_decide_unpack _). vm_compute. exact I.
  - apply (N_forall_below (fun c => latin1_decomposition c = [c]) 128).
    apply (bool_decide_unpack _). vm_compute. exact I.
  - apply (N_forall_below (fun c => latin1_combining_class c = 0%N) 128).
    apply (bool_decide_unpack _). vm_compute. exact I.
  - intros c. destruct (N.lt_ge_cases c 0x400) as [Hlt|Hge].
    + revert c Hlt.
      apply (N_forall_below
               (fun c => forall d, d ∈ latin1_decomposition c -> latin1_decomposition d = [d])
               1024).
      apply Forall_forall. intros c Hc d. revert d. apply Forall_forall.
      revert c Hc. apply Forall_forall.
      apply (bool_decide_unpack _). vm_compute. exact I.
    + intros d. rewrite (latin1_decomposition_above c Hge).
      intros ->%list_elem_of_singleton. apply latin1_decomposition_above, Hge.
  - reflexivity.
  - split; reflexivity.
Qed.

#[global] Existing Instance Latin1_facts.

(** C2: on the input of the self-test the normalizer returns CANCION NINO
    123 !, with U+00D1 rewritten to N: the accent of the o is removed and
    the digits, spaces and the exclamation mark are kept, but the result is
    not the string that the self-test expects. *)
Theorem normalizeInput_selftest :
  normalizeInput (lit "canci" ++ [0xF3%N] ++ lit "n NI" ++ [N_TILDE] ++ lit "O 123 !")
    UNIFIED_ALPHABET = lit "CANCION NINO 123 !" /\
  lit "CANCION NINO 123 !" <> lit "CANCION NI" ++ [N_TILDE] ++ lit "O 123 !".
Proof.
  split.
  - vm_compute. reflexivity.
  - vm_compute. discriminate.
Qed.

(** No engine that satisfies the facts can meet the expectation of the
    self-test, whatever the input. *)
Lemma selftest_expectation_unreachable (U : UnicodeData) (HU : UnicodeFacts U)
    (x : jsstring) :
  normalizeInput x UNIFIED_ALPHABET <> lit "CANCION NI" ++ [N_TILDE] ++ lit "O 123 !".
Proof.
  intros Heq. apply (normalizeInput_no_n_tilde x UNIFIED_ALPHABET).
  rewrite Heq. apply (bool_decide_unpack _). vm_compute. exact I.
Qed.

(** The same rewriting breaks the round trip through the two flows: the
    ciphertext of B under the pad N is U+00D1, which the decrypt flow
    normalizes to N, and the message recovered is A. *)
Lemma encrypt_decrypt_n_tilde :
  pad encrypted_B = lit "N" /\
  cipher encrypted_B = [N_TILDE] /\
  phase decrypted_B = DecryptedActive 300 /\
  message decrypted_B = lit "A".
Proof. repeat split; vm_compute; reflexivity. Qed.

(** C4: normalizing a normalized string changes nothing. *)
Theorem normalizeInput_idempotent (U : UnicodeData) (HU : UnicodeFacts U)
    (x : jsstring) :
  normalizeInput (normalizeInput x UNIFIED_ALPHABET) UNIFIED_ALPHABET =
  normalizeInput x UNIFIED_ALPHABET.
Proof. apply normalizeInput_fixed, normalizeInput_plain. Qed.

Lemma normalizeInput_idempotent_witness :
  normalizeInput
    (normalizeInput (lit "canci" ++ [0xF3%N] ++ lit "n NI" ++ [N_TILDE] ++ lit "O 123 !")
       UNIFIED_ALPHABET) UNIFIED_ALPHABET =
  normalizeInput (lit "canci" ++ [0xF3%N] ++ lit "n NI" ++ [N_TILDE] ++ lit "O 123 !")
    UNIFIED_ALPHABET.
Proof. apply (normalizeInput_idempotent Latin1 Latin1_facts). Defined.

(** C9: U+00D1 is a member of the alphabet, yet no output of the normalizer
    contains it: decomposition and the removal of the diacritics rewrite
    every occurrence of U+00D1 and of U+00F1 in the input to N. *)
Theorem normalizeInput_never_n_tilde (U : UnicodeData) (HU : UnicodeFacts U)
    (x y : jsstring) :
  N_TILDE ∈ UNIFIED_ALPHABET /\
  (N_TILDE ∉ normalizeInput x UNIFIED_ALPHABET) /\
  normalizeInput (x ++ [N_TILDE] ++ y) UNIFIED_ALPHABET =
    normalizeInput x UNIFIED_ALPHABET ++ lit "N" ++ normalizeInput y UNIFIED_ALPHABET /\
  normalizeInput (x ++ [0xF1%N] ++ y) UNIFIED_ALPHABET =
    normalizeInput x UNIFIED_ALPHABET ++ lit "N" ++ normalizeInput y UNIFIED_ALPHABET.
Proof.
  destruct normalizeInput_n_tilde as [Hup Hlow].
  split; [apply (bool_decide_unpack _); vm_compute; exact I|].
  split; [apply normalizeInput_no_n_tilde|].
  rewrite !normalizeInput_app, Hup, Hlow. split; reflexivity.
Qed.

Lemma normalizeInput_never_n_tilde_witness :
  N_TILDE ∈ UNIFIED_ALPHABET /\
  (N_TILDE ∉ normalizeInput (lit "NI" ++ [N_TILDE]) UNIFIED_ALPHABET) /\
  normalizeInput ((lit "NI" ++ [N_TILDE]) ++ [N_TILDE] ++ lit "O") UNIFIED_ALPHABET =
    normalizeInput (lit "NI" ++ [N_TILDE]) UNIFIED_ALPHABET ++ lit "N" ++
    normalizeInput (lit "O") UNIFIED_ALPHABET /\
  normalizeInput ((lit "NI" ++ [N_TILDE]) ++ [0xF1%N] ++ lit "O") UNIFIED_ALPHABET =
    normalizeInput (lit "NI" ++ [N_TILDE]) UNIFIED_ALPHABET ++ lit "N" ++
    normalizeInput (lit "O") UNIFIED_ALPHABET.
Proof.
  apply (normalizeInput_never_n_tilde Latin1 Latin1_facts (lit "NI" ++ [N_TILDE]) (lit "O")).
Defined.

(** ** Index codec *)

Lemma alphabet_length : length UNIFIED_ALPHABET = 64%nat.
Proof. reflexivity. Qed.

Lemma alphabet_NoDup : NoDup UNIFIED_ALPHABET.
Proof. apply (bool_decide_unpack _). vm_compute. exact I. Qed.

Lemma indexOf_from_lookup (a : jsstring) (c : N) (i : nat) (k : Z) :
  NoDup a -> a !! i = Some c -> indexOf_from a c k = k + Z.of_nat i.
Proof.
  intros Hnd. revert i k. induction Hnd as [|d a Hd Hnd IH]; intros i k Hi.
  - discriminate.
  - simpl. destruct i as [|i]; simpl in Hi.
    + injection Hi as ->. rewrite N.eqb_refl. lia.
    + destruct (N.eqb_spec d c) as [->|Hne].
      * destruct Hd. eapply list_elem_of_lookup_2, Hi.
      * rewrite (IH i (k + 1) Hi). lia.
Qed.

Lemma js_at_index (a : jsstring) (v : number) :
  is_index (Z.of_nat (length a)) v -> exists c, js_at a v = Some c /\ c ∈ a.
Proof.
  destruct v as [z|]; simpl; [|tauto]. intros Hz.
  destruct (Z.leb_spec 0 z) as [_|?]; [|lia].
  destruct (lookup_lt_is_Some_2 a (Z.to_nat z)) as [c Hc]; [lia|].
  exists c. split; [assumption|]. eapply list_elem_of_lookup_2, Hc.
Qed.

(** [fromIndices] of an index sequence has one character of the alphabet
    for each index, and [toIndices] gives the indices back. *)
Lemma fromIndices_index_sequence (a : jsstring) (idx : list number) :
  NoDup a ->
  IndexSequence (Z.of_nat (length a)) idx ->
  length (fromIndices idx a) = length idx /\
  Forall (fun c => c ∈ a) (fromIndices idx a) /\
  toIndices (fromIndices idx a) a = idx.
Proof.
  intros Hnd Hidx. unfold fromIndices.
  induction Hidx as [|v idx Hv Hidx (IHlen & IHin & IHto)].
  - repeat split. constructor.
  - rewrite bind_cons.
    destruct (js_at_index a v Hv) as (c & Hc & Hin). rewrite Hc. simpl.
    split; [congruence|]. split; [constructor; assumption|].
    f_equal; [|exact IHto].
    destruct v as [z|]; [|destruct Hv]. simpl in Hc, Hv.
    destruct (Z.leb_spec 0 z) as [Hz|?]; [|lia].
    unfold indexOf. rewrite (indexOf_from_lookup a c (Z.to_nat z) 0 Hnd Hc).
    f_equal. lia.
Qed.

(** ** Pad generator *)

Lemma getRandomValues_within_quota (crypto : Crypto) (len : nat) :
  Z.of_nat len <= 16384 ->
  getRandomValues crypto (Uint32Array len) =
  Ok (imap (fun i _ => random_word crypto i `mod` 2 ^ 32) (Uint32Array len)).
Proof.
  intros Hlen. unfold getRandomValues, byteLength, Uint32Array.
  rewrite length_replicate.
  destruct (Z.ltb_spec 65536 (4 * Z.of_nat len)) as [?|_]; [lia|reflexivity].
Qed.

(** Within the quota of the random source the generator returns a pad of
    the requested length, made of alphabet symbols whose indices lie in
    [0, 64). *)
Lemma randomPad_within_quota (crypto : Crypto) (len : nat) :
  Z.of_nat len <= 16384 ->
  exists padText : jsstring,
    randomPad crypto len UNIFIED_ALPHABET = Ok padText /\
    length padText = len /\
    Forall (fun c => c ∈ UNIFIED_ALPHABET) padText /\
    IndexSequence 64 (toIndices padText UNIFIED_ALPHABET).
Proof.
  intros Hlen. unfold randomPad.
  rewrite (getRandomValues_within_quota crypto len Hlen). simpl mbind.
  set (buf := imap _ (Uint32Array len)).
  set (idx := map (fun n => js_rem (Int n) (js_length UNIFIED_ALPHABET)) buf).
  assert (Hidx : IndexSequence 64 idx).
  { apply Forall_forall. intros v Hv.
    apply list_elem_of_fmap in Hv as (n & -> & Hn).
    apply list_elem_of_lookup in Hn as (i & Hn).
    unfold buf in Hn. rewrite list_lookup_imap in Hn.
    destruct (Uint32Array len !! i); [|discriminate]. injection Hn as <-.
    pose proof (Z.mod_pos_bound (random_word crypto i) (2 ^ 32) ltac:(lia)) as Hb.
    change (js_length UNIFIED_ALPHABET) with (Int 64). simpl.
    rewrite Z.rem_mod_nonneg by lia. apply Z.mod_pos_bound. lia. }
  destruct (fromIndices_index_sequence UNIFIED_ALPHABET idx alphabet_NoDup Hidx)
    as (Hl & Hin & Hto).
  exists (fromIndices idx UNIFIED_ALPHABET). split; [reflexivity|].
  split; [|split; [assumption|]].
  - rewrite Hl. unfold idx, buf, Uint32Array.
    rewrite length_map, length_imap, length_replicate. reflexivity.
  - rewrite Hto. exact Hidx.
Qed.

(** C5: for a request of 16385 symbols the buffer has 65540 bytes, the
    random source refuses it, and the generator returns no pad at all. *)
Theorem randomPad_over_quota (crypto : Crypto) :
  randomPad crypto (Z.to_nat 16385) UNIFIED_ALPHABET =
  Throw (mkExn "QuotaExceededError" (quota_message crypto)).
Proof.
  unfold randomPad, getRandomValues, byteLength, Uint32Array.
  rewrite length_replicate. reflexivity.
Qed.

(** *** Uniformity of the reduction *)

Lemma filter_none {A : Type} (P : A -> Prop) `{!forall x, Decision (P x)} (l : list A) :
  Forall (fun x => ~ P x) l -> filter P l = [].
Proof.
  induction 1 as [|x l Hx Hl IH].
  - reflexivity.
  - rewrite filter_cons_False by assumption. exact IH.
Qed.

Lemma residue_offset (M a d : Z) :
  0 < M -> 0 <= a -> a mod M = 0 -> 0 <= d < M ->
  js_rem (Int (a + d)) (Int M) = Int d.
Proof.
  intros HM Ha Hmod Hd. simpl.
  destruct (Z.eqb_spec M 0) as [?|_]; [lia|]. f_equal.
  rewrite Z.rem_mod_nonneg by lia.
  symmetry. apply (Z.mod_unique _ _ (a / M)); [lia|].
  rewrite (Z_div_exact_full_2 a M) at 1 by lia. reflexivity.
Qed.

(** In a block of M consecutive values starting at a multiple of M exactly
    one value reduces to the residue r. *)
Lemma residue_block (M r a : Z) :
  0 <= r < M -> 0 <= a -> a mod M = 0 ->
  filter (fun n => js_rem (Int n) (Int M) = Int r) (seqZ a M) = [a + r].
Proof.
  intros Hr Ha Hmod.
  assert (Hsplit : seqZ a M = seqZ a r ++ seqZ (a + r) (M - r)).
  { rewrite <- seqZ_app by lia. f_equal. lia. }
  rewrite Hsplit, (seqZ_cons (a + r) (M - r)) by lia.
  rewrite filter_app, filter_cons_True.
  2: { apply residue_offset; lia. }
  rewrite !filter_none; [reflexivity| |].
  - apply Forall_seqZ. intros n Hn.
    replace n with (a + (n - a)) by lia.
    rewrite residue_offset by lia. intros [= ?]. lia.
  - apply Forall_seqZ. intros n Hn.
    replace n with (a + (n - a)) by lia.
    rewrite residue_offset by lia. intros [= ?]. lia.
Qed.

Lemma residue_count (M r : Z) (k : nat) :
  0 <= r < M ->
  length (filter (fun n => js_rem (Int n) (Int M) = Int r)
            (seqZ 0 (M * Z.of_nat k))) = k.
Proof.
  intros Hr. induction k as [|k IH].
  - rewrite Z.mul_0_r. reflexivity.
  - replace (M * Z.of_nat (S k)) with (M * Z.of_nat k + M) by lia.
    rewrite seqZ_app by nia. rewrite filter_app, length_app, IH.
    rewrite residue_block; [simpl; lia|lia|nia|].
    rewrite Z.add_0_l, Z.mul_comm. apply Z.mod_mul. lia.
Qed.

(** ** Session *)

(** Projections of the states that the effects produce. *)
Lemma countdown_clearInterval (s : Session) : countdown (clearInterval s) = countdown s.
Proof. reflexivity. Qed.
Lemma countdown_setInterval (s : Session) : countdown (setInterval s) = countdown s.
Proof. reflexivity. Qed.
Lemma countdown_resetAll (s : Session) : countdown (resetAll s) = None.
Proof. reflexivity. Qed.
Lemma interval_clearInterval (s : Session) : interval (clearInterval s) = false.
Proof. reflexivity. Qed.
Lemma interval_setInterval (s : Session) : interval (setInterval s) = true.
Proof. reflexivity. Qed.
Lemma interval_resetAll (s : Session) : interval (resetAll s) = interval s.
Proof. reflexivity. Qed.
Lemma modeScreen_clearInterval (s : Session) : modeScreen (clearInterval s) = modeScreen s.
Proof. reflexivity. Qed.
Lemma modeScreen_setInterval (s : Session) : modeScreen (setInterval s) = modeScreen s.
Proof. reflexivity. Qed.
Lemma modeScreen_resetAll (s : Session) : modeScreen (resetAll s) = modeScreen s.
Proof. reflexivity. Qed.

Create Rewrite HintDb session.
#[global] Hint Rewrite countdown_clearInterval countdown_setInterval countdown_resetAll
  interval_clearInterval interval_setInterval interval_resetAll
  modeScreen_clearInterval modeScreen_setInterval modeScreen_resetAll : session.

Section SessionFacts.
Context {U : UnicodeData}.

(** After a reset one more round settles the effects, whatever the fuel. *)
Lemma flushEffects_reset (k : nat) (s : Session) :
  flushEffects (S k) s (resetAll s) =
  match countdown s with
  | Some _ => clearInterval (resetAll s)
  | None => resetAll s
  end.
Proof.
  cbn [flushEffects].
  rewrite (bool_decide_eq_false_2 (modeScreen s <> modeScreen (resetAll s)))
    by (intros H; apply H; reflexivity).
  destruct s as [m d pi msg c p st sh [n|] iv]; reflexivity.
Qed.

(** Two rounds are enough fuel for every commit. *)
Lemma flushEffects_settles (k : nat) (prev cur : Session) :
  flushEffects (2 + k) prev cur = flushEffects 2 prev cur.
Proof.
  change (2 + k)%nat with (S (S k)). change 2%nat with (S 1).
  remember (S k) as a eqn:Ha. remember 1%nat as b eqn:Hb.
  cbn [flushEffects].
  destruct (if bool_decide (countdown prev <> countdown cur)
            then countdownEffect _ else _) as [s2 reset].
  destruct (_ || _); [|reflexivity].
  subst a b. rewrite !flushEffects_reset. reflexivity.
Qed.

Lemma commit_unchanged (prev cur : Session) :
  modeScreen cur = modeScreen prev ->
  countdown cur = countdown prev ->
  commit prev cur = cur.
Proof.
  intros Hm Hc. unfold commit. cbn [flushEffects].
  rewrite Hm, Hc.
  rewrite !bool_decide_eq_false_2 by (intros H; apply H; reflexivity).
  reflexivity.
Qed.

Lemma try_catch_interval (body : result Session) (s : Session) :
  (forall s', body = Ok s' -> interval s' = interval s) ->
  interval (try_catch body s) = interval s.
Proof.
  intros H. destruct body as [s'|e]; simpl; [apply H|]; reflexivity.
Qed.

Lemma bind_Ok_inv {A B : Type} (r : result A) (f : A -> result B) (b : B) :
  r ≫= f = Ok b -> exists a, r = Ok a /\ f a = Ok b.
Proof. destruct r as [a|e]; [eauto | discriminate]. Qed.

(** No handler touches the interval, except through the effects. *)
Lemma handle_interval (e : Event) (s : Session) :
  interval (handle e s) = interval s.
Proof.
  destruct e; simpl; try reflexivity.
  - apply try_catch_interval. intros s' H.
    apply bind_Ok_inv in H as (_ & _ & H).
    apply bind_Ok_inv in H as (newPad & _ & H).
    injection H as <-. reflexivity.
  - apply try_catch_interval. intros s' H.
    apply bind_Ok_inv in H as (_ & _ & H).
    injection H as <-. reflexivity.
  - apply try_catch_interval. intros s' H.
    apply bind_Ok_inv in H as (_ & _ & H).
    apply bind_Ok_inv in H as (_ & _ & H).
    apply bind_Ok_inv in H as (_ & _ & H).
    injection H as <-. reflexivity.
  - destruct (interval s) eqn:Hi; simpl; first [exact Hi | reflexivity].
Qed.

(** Settles a test [bool_decide (a <> b)] of the effect dependencies from the
    context. *)
Ltac decide_changed :=
  match goal with
  | |- context [bool_decide (?a <> ?b)] =>
      first
        [ rewrite (bool_decide_eq_false_2 (a <> b))
            by (let H := fresh in intros H; apply H; first [assumption | reflexivity])
        | rewrite (bool_decide_eq_true_2 (a <> b))
            by first [ assumption | discriminate
                     | let H := fresh in intros H; injection H; lia ] ]
  end.

Lemma commit_settled (prev cur : Session) :
  settled prev -> interval cur = interval prev -> settled (commit prev cur).
Proof.
  intros Hs Hi. unfold commit. change 2%nat with (S 1).
  remember 1%nat as b eqn:Hb. cbn [flushEffects]. subst b.
  unfold countdownEffect. autorewrite with session.
  destruct (decide (modeScreen prev = modeScreen cur)) as [Hm|Hm],
           (decide (countdown prev = countdown cur)) as [Hcd|Hcd];
    repeat decide_changed; cbn [orb]; autorewrite with session.
  - unfold settled in *. rewrite <- Hcd, Hi. exact Hs.
  - destruct (countdown cur) as [n|] eqn:Hn; [destruct (Z.leb_spec n 0)|];
      cbn [orb]; rewrite ?flushEffects_reset;
      unfold settled; autorewrite with session; rewrite ?Hn;
      autorewrite with session; first [reflexivity | split; [lia | reflexivity]].
  - rewrite flushEffects_reset. unfold settled in *. rewrite <- Hcd.
    destruct (countdown prev); autorewrite with session; [reflexivity|].
    rewrite Hi. exact Hs.
  - destruct (countdown cur) as [n|] eqn:Hn; [destruct (Z.leb_spec n 0)|];
      cbn [orb]; rewrite ?flushEffects_reset;
      unfold settled; autorewrite with session; rewrite ?Hn;
      autorewrite with session; reflexivity.
Qed.

(** The interval is pending exactly while a positive countdown is set: this
    holds on mount and is kept by every event. *)
Lemma mount_settled : settled mount.
Proof. reflexivity. Qed.

Lemma dispatch_settled (e : Event) (s : Session) :
  settled s -> settled (dispatch e s).
Proof.
  intros Hs. apply commit_settled; [assumption | apply handle_interval].
Qed.

Lemma run_settled (es : list Event) (s : Session) :
  settled s -> settled (run es s).
Proof.
  revert s. induction es as [|e es IH]; intros s Hs; simpl.
  - assumption.
  - apply IH, dispatch_settled, Hs.
Qed.

Lemma onDecrypt_body_mismatch (s : Session) :
  decryptStep s = ready ->
  normalizeInput (cipher s) alphabet <> [] ->
  length (normalizeInput (cipher s) alphabet) <> length (pad s) ->
  onDecrypt_body s =
  Throw (Error (length_mismatch_message (normalizeInput (cipher s) alphabet) (pad s))).
Proof.
  intros Hstep Hne Hlen. unfold onDecrypt_body. rewrite Hstep.
  rewrite (bool_decide_eq_false_2 (length (normalizeInput (cipher s) alphabet) = 0%nat)).
  2: { intros H0. apply Hne, nil_length_inv, H0. }
  rewrite (bool_decide_eq_true_2 _ Hlen). reflexivity.
Qed.

Lemma onDecrypt_body_blank (s : Session) :
  decryptStep s = ready ->
  normalizeInput (cipher s) alphabet = [] ->
  onDecrypt_body s = Throw (Error "Pega el texto cifrado.").
Proof.
  intros Hstep Hnil. unfold onDecrypt_body. rewrite Hstep, Hnil. reflexivity.
Qed.

Lemma onDecrypt_success (s : Session) :
  decryptStep s = ready ->
  normalizeInput (cipher s) alphabet <> [] ->
  length (normalizeInput (cipher s) alphabet) = length (pad s) ->
  onDecrypt s =
  setCountdown (Some 300)
    (setOK "Descifrado recuperado. El mensaje se limpiará automáticamente en 5 minutos."
      (setMessage
        (fromIndices
          (otpSub (toIndices (normalizeInput (cipher s) alphabet) alphabet)
                  (toIndices (pad s) alphabet) modulus) alphabet) s)).
Proof.
  intros Hstep Hne Hlen. unfold onDecrypt, onDecrypt_body. rewrite Hstep.
  rewrite (bool_decide_eq_false_2 (length (normalizeInput (cipher s) alphabet) = 0%nat)).
  2: { intros H0. apply Hne, nil_length_inv, H0. }
  rewrite (bool_decide_eq_false_2
             (length (normalizeInput (cipher s) alphabet) <> length (pad s)))
    by (intros H; apply H; assumption).
  reflexivity.
Qed.

(** The commits that change the countdown alone. *)
Lemma commit_countdown_running (prev cur : Session) (n : Z) :
  modeScreen cur = modeScreen prev ->
  countdown cur = Some n -> countdown prev <> Some n -> 0 < n ->
  commit prev cur = setInterval (clearInterval cur).
Proof.
  intros Hm Hn Hne Hpos. unfold commit. change 2%nat with (S 1).
  remember 1%nat as b eqn:Hb. cbn [flushEffects]. subst b.
  rewrite Hm, Hn. repeat decide_changed.
  unfold countdownEffect. autorewrite with session. rewrite Hn.
  destruct (Z.leb_spec n 0); [lia|]. reflexivity.
Qed.

Lemma commit_countdown_expired (prev cur : Session) (n : Z) :
  modeScreen cur = modeScreen prev ->
  countdown cur = Some n -> countdown prev <> Some n -> n <= 0 ->
  commit prev cur = clearInterval (resetAll cur).
Proof.
  intros Hm Hn Hne Hpos. unfold commit. change 2%nat with (S 1).
  remember 1%nat as b eqn:Hb. cbn [flushEffects]. subst b.
  rewrite Hm, Hn. repeat decide_changed.
  unfold countdownEffect. autorewrite with session. rewrite Hn.
  destruct (Z.leb_spec n 0); [|lia]. cbn [orb].
  rewrite flushEffects_reset. autorewrite with session. rewrite Hn.
  destruct cur; reflexivity.
Qed.

Lemma commit_countdown_removed (prev cur : Session) :
  modeScreen cur = modeScreen prev ->
  countdown cur = None -> countdown prev <> None ->
  commit prev cur = clearInterval cur.
Proof.
  intros Hm Hn Hne. unfold commit. change 2%nat with (S 1).
  remember 1%nat as b eqn:Hb. cbn [flushEffects]. subst b.
  rewrite Hm, Hn. repeat decide_changed.
  unfold countdownEffect. autorewrite with session. rewrite Hn. reflexivity.
Qed.

(** A tick above one only decrements the countdown. *)
Lemma tick_decrement (s : Session) (n : Z) :
  settled s -> countdown s = Some n -> 1 < n ->
  dispatch Tick s = setCountdown (Some (n - 1)) s.
Proof.
  unfold settled. intros Hs Hc Hn. rewrite Hc in Hs. destruct Hs as [_ Hi].
  unfold dispatch. cbn [handle]. rewrite Hi.
  rewrite (commit_countdown_running s (onInterval s) (n - 1)).
  - unfold onInterval. rewrite Hc. destruct s; simpl in *; subst; reflexivity.
  - reflexivity.
  - unfold onInterval. rewrite Hc. reflexivity.
  - rewrite Hc. intros [= ?]. lia.
  - lia.
Qed.

(** The tick at one resets the session and clears the interval. *)
Lemma tick_expire (s : Session) :
  settled s -> countdown s = Some 1 ->
  dispatch Tick s = clearInterval (resetAll s).
Proof.
  unfold settled. intros Hs Hc. rewrite Hc in Hs. destruct Hs as [_ Hi].
  unfold dispatch. cbn [handle]. rewrite Hi.
  rewrite (commit_countdown_expired s (onInterval s) 0).
  - destruct s; reflexivity.
  - reflexivity.
  - unfold onInterval. rewrite Hc. reflexivity.
  - rewrite Hc. discriminate.
  - lia.
Qed.

Lemma ticks_S (k : nat) (s : Session) :
  ticks (S k) s = dispatch Tick (ticks k s).
Proof. reflexivity. Qed.

Lemma ticks_decrement (k : nat) (s : Session) (n : Z) :
  settled s -> countdown s = Some n -> Z.of_nat k < n ->
  ticks k s = setCountdown (Some (n - Z.of_nat k)) s.
Proof.
  intros Hs Hc. induction k as [|k IH]; intros Hk.
  - change (ticks 0 s) with s. rewrite Z.sub_0_r.
    destruct s; simpl in Hc; subst; reflexivity.
  - rewrite ticks_S, IH by lia.
    rewrite (tick_decrement _ (n - Z.of_nat k)).
    + destruct s; unfold setCountdown; simpl. do 2 f_equal. lia.
    + unfold settled in *. destruct s; simpl in *. subst. split; [lia|tauto].
    + reflexivity.
    + lia.
Qed.

Lemma ticks_expire (k : nat) (s : Session) :
  settled s -> countdown s = Some (Z.of_nat (S k)) ->
  ticks (S k) s = clearInterval (resetAll s).
Proof.
  intros Hs Hc. rewrite ticks_S.
  rewrite (ticks_decrement k s _ Hs Hc) by lia.
  rewrite tick_expire.
  - destruct s; reflexivity.
  - unfold settled in *. destruct s; simpl in *. subst. split; [lia|tauto].
  - destruct s; unfold setCountdown; simpl. f_equal. lia.
Qed.

(** Clearing a settled session resets it and leaves no interval pending. *)
Lemma clear_resets (s : Session) :
  settled s -> dispatch ClickClear s = clearInterval (resetAll s).
Proof.
  unfold settled, dispatch. cbn [handle onClearAll]. intros Hs.
  destruct (countdown s) as [n|] eqn:Hc.
  - apply commit_countdown_removed; [reflexivity | reflexivity |].
    rewrite Hc. discriminate.
  - rewrite commit_unchanged; [|reflexivity|rewrite Hc; reflexivity].
    destruct s; simpl in *; subst; reflexivity.
Qed.

Lemma ticks_idle (k : nat) (s : Session) :
  interval s = false -> ticks k s = s.
Proof.
  intros Hi. induction k as [|k IH]; [reflexivity|].
  rewrite ticks_S, IH. unfold dispatch. cbn [handle]. rewrite Hi.
  apply commit_unchanged; reflexivity.
Qed.

End SessionFacts.

Lemma phase_DecryptedActive (s : Session) (n : Z) :
  phase s = DecryptedActive n ->
  modeScreen s = Some decrypt /\ decryptStep s = ready /\ countdown s = Some n.
Proof.
  unfold phase.
  destruct (modeScreen s) as [[|]|]; [destruct (showEncryptResults s)| |];
    try discriminate.
  destruct (decryptStep s); [discriminate|].
  destruct (countdown s); [|discriminate].
  intros [= ->]. auto.
Qed.

Lemma phase_PadAccepted (s : Session) :
  phase s = PadAccepted ->
  modeScreen s = Some decrypt /\ decryptStep s = ready /\ countdown s = None.
Proof.
  unfold phase.
  destruct (modeScreen s) as [[|]|]; [destruct (showEncryptResults s)| |];
    try discriminate.
  destruct (decryptStep s); [discriminate|].
  destruct (countdown s); [discriminate|]. auto.
Qed.

Lemma phase_reset (s : Session) :
  phase (clearInterval (resetAll s)) =
  match modeScreen s with
  | None => Idle
  | Some encrypt => MessageEntry
  | Some decrypt => AwaitingPad
  end.
Proof. unfold phase. destruct s as [[[|]|] d pi msg c p st sh cd iv]; reflexivity. Qed.

Section SessionClaims.
Context {U : UnicodeData}.

(** A successful decrypt installs the countdown of 300 seconds. *)
Lemma decrypt_starts_countdown (s : Session) :
  settled s ->
  decryptStep s = ready ->
  normalizeInput (cipher s) alphabet <> [] ->
  length (normalizeInput (cipher s) alphabet) = length (pad s) ->
  settled (dispatch ClickDecrypt s) /\
  modeScreen (dispatch ClickDecrypt s) = modeScreen s /\
  decryptStep (dispatch ClickDecrypt s) = ready /\
  countdown (dispatch ClickDecrypt s) = Some 300.
Proof.
  intros Hs Hstep Hne Hlen.
  split; [apply dispatch_settled, Hs|].
  unfold dispatch. cbn [handle]. rewrite (onDecrypt_success s Hstep Hne Hlen).
  set (cur := setCountdown _ _).
  destruct (decide (countdown s = Some 300)) as [Heq|Hneq].
  - rewrite commit_unchanged; [|reflexivity|rewrite Heq; reflexivity].
    repeat split. exact Hstep.
  - rewrite (commit_countdown_running s cur 300); [|reflexivity|reflexivity|assumption|lia].
    repeat split. exact Hstep.
Qed.

End SessionClaims.

(** C3 (counterexample): with operands of lengths 2 and 1 both operations
    return an array: the position without a pad value holds NaN, and a
    surplus pad value is ignored. *)
Lemma otp_unequal_lengths_return :
  length [Int 1; Int 2] <> length [Int 3] /\
  otpAdd [Int 1; Int 2] [Int 3] (Int 64) = [Int 4; NaN] /\
  otpSub [Int 1; Int 2] [Int 3] (Int 64) = [Int 62; NaN] /\
  otpAdd [Int 3] [Int 1; Int 2] (Int 64) = [Int 4] /\
  otpSub [Int 3] [Int 1; Int 2] (Int 64) = [Int 2].
Proof. repeat split. discriminate. Qed.

(** C3 (amended): otpAdd and otpSub do not compare the lengths of their
    operands and return an array as long as the first one: a position that
    the second operand does not reach holds NaN, and the elements of the
    second operand beyond the length of the first are ignored.  The check of
    the lengths is made by onDecrypt, which throws an error naming both
    lengths before otpSub is reached. *)
Theorem otp_lengths_unchecked (U : UnicodeData) (m p : list number) (md : number)
    (s : Session) :
  length (otpAdd m p md) = length m /\
  length (otpSub m p md) = length m /\
  (forall i : nat, (length p <= i < length m)%nat ->
     otpAdd m p md !! i = Some NaN /\ otpSub m p md !! i = Some NaN) /\
  otpAdd m p md = otpAdd m (take (length m) p) md /\
  otpSub m p md = otpSub m (take (length m) p) md /\
  (decryptStep s = ready ->
   normalizeInput (cipher s) alphabet <> [] ->
   length (normalizeInput (cipher s) alphabet) <> length (pad s) ->
   onDecrypt_body s =
   Throw (Error (length_mismatch_message (normalizeInput (cipher s) alphabet) (pad s)))).
Proof.
  split; [apply otpAdd_length|]. split; [apply otpSub_length|].
  split; [|split; [|split; [|apply onDecrypt_body_mismatch]]].
  - intros i [Hp Hm].
    rewrite otpAdd_lookup, otpSub_lookup.
    rewrite (lookup_ge_None_2 p i Hp).
    destruct (lookup_lt_is_Some_2 m i Hm) as [v ->].
    destruct v; split; reflexivity.
  - apply list_eq. intros i. rewrite !otpAdd_lookup.
    destruct (m !! i) as [v|] eqn:Hv; [|reflexivity].
    rewrite lookup_take_lt by (eapply lookup_lt_Some, Hv). reflexivity.
  - apply list_eq. intros i. rewrite !otpSub_lookup.
    destruct (m !! i) as [v|] eqn:Hv; [|reflexivity].
    rewrite lookup_take_lt by (eapply lookup_lt_Some, Hv). reflexivity.
Qed.

Lemma otp_lengths_unchecked_witness :
  length (otpAdd [Int 1; Int 2] [Int 3] (Int 64)) = 2%nat /\
  otpAdd [Int 1; Int 2] [Int 3] (Int 64) !! 1%nat = Some NaN /\
  otpSub [Int 1; Int 2] [Int 3] (Int 64) !! 1%nat = Some NaN /\
  onDecrypt_body short_cipher_entered =
  Throw (Error "El pad debe tener la MISMA longitud. (cifrado=5, pad=10)").
Proof.
  destruct (otp_lengths_unchecked Latin1 [Int 1; Int 2] [Int 3] (Int 64)
              short_cipher_entered) as (Hadd & _ & Hnan & _ & _ & Hthrow).
  split; [exact Hadd|].
  destruct (Hnan 1%nat) as [H1 H2]; [simpl; lia|].
  split; [exact H1|]. split; [exact H2|].
  apply Hthrow.
  - reflexivity.
  - vm_compute. discriminate.
  - vm_compute. discriminate.
Defined.

(** C6 (counterexample): the pad ABCDEFGHIJ is accepted and the ciphertext
    holds no symbol of the alphabet; its normalized length 0 differs from
    the pad length 10, yet decrypt reports the missing ciphertext and not
    the lengths. *)
Lemma decrypt_blank_cipher_not_mismatch :
  phase blank_cipher_entered = PadAccepted /\
  length (normalizeInput (cipher blank_cipher_entered) alphabet) = 0%nat /\
  length (pad blank_cipher_entered) = 10%nat /\
  status (dispatch ClickDecrypt blank_cipher_entered) =
    mkStatus "Pega el texto cifrado." (Some err) /\
  status (dispatch ClickDecrypt blank_cipher_entered) <>
    mkStatus (length_mismatch_message
                (normalizeInput (cipher blank_cipher_entered) alphabet)
                (pad blank_cipher_entered)) (Some err).
Proof.
  repeat split; try (vm_compute; reflexivity).
  vm_compute. discriminate.
Qed.

(** C6 (amended): in PadAccepted, a decrypt of a ciphertext whose
    normalized length differs from the length of the stored pad fails: with
    the message that names both lengths when the normalized ciphertext is
    not empty, and with the message that asks for the ciphertext when it is
    empty.  Apart from that message in the status line the session is
    unchanged: it stays in PadAccepted with the same pad, without plaintext
    and without countdown. *)
Theorem decrypt_length_mismatch (U : UnicodeData) (s : Session) :
  phase s = PadAccepted ->
  length (normalizeInput (cipher s) alphabet) <> length (pad s) ->
  dispatch ClickDecrypt s =
    setErr (match normalizeInput (cipher s) alphabet with
            | [] => "Pega el texto cifrado."
            | _ :: _ =>
                "El pad debe tener la MISMA longitud. (cifrado=" +:+
                pretty (length (normalizeInput (cipher s) alphabet)) +:+
                ", pad=" +:+ pretty (length (pad s)) +:+ ")"
            end) s /\
  phase (dispatch ClickDecrypt s) = PadAccepted /\
  pad (dispatch ClickDecrypt s) = pad s /\
  cipher (dispatch ClickDecrypt s) = cipher s /\
  message (dispatch ClickDecrypt s) = message s /\
  countdown (dispatch ClickDecrypt s) = None /\
  interval (dispatch ClickDecrypt s) = interval s.
Proof.
  intros Hphase Hlen.
  destruct (phase_PadAccepted s Hphase) as (Hmode & Hstep & Hcd).
  assert (Heq : exists t, dispatch ClickDecrypt s = setErr t s /\
                t = match normalizeInput (cipher s) alphabet with
                    | [] => "Pega el texto cifrado."
                    | _ :: _ => length_mismatch_message
                                  (normalizeInput (cipher s) alphabet) (pad s)
                    end).
  { unfold dispatch. cbn [handle]. unfold onDecrypt.
    destruct (normalizeInput (cipher s) alphabet) as [|ch c] eqn:Hc.
    - rewrite (onDecrypt_body_blank s Hstep Hc). eexists. split; [|reflexivity].
      apply commit_unchanged; reflexivity.
    - rewrite (onDecrypt_body_mismatch s Hstep); rewrite Hc;
        [|discriminate|exact Hlen].
      eexists. split; [|reflexivity]. apply commit_unchanged; reflexivity. }
  destruct Heq as (t & Heq & ->). rewrite Heq.
  split; [reflexivity|].
  split; [|repeat split; exact Hcd].
  unfold phase in *. exact Hphase.
Qed.

Lemma decrypt_length_mismatch_witness :
  dispatch ClickDecrypt short_cipher_entered =
    setErr "El pad debe tener la MISMA longitud. (cifrado=5, pad=10)"
      short_cipher_entered /\
  phase (dispatch ClickDecrypt short_cipher_entered) = PadAccepted /\
  pad (dispatch ClickDecrypt short_cipher_entered) = lit "ABCDEFGHIJ".
Proof.
  destruct (decrypt_length_mismatch Latin1 short_cipher_entered)
    as (Heq & Hphase & Hpad & _).
  - reflexivity.
  - vm_compute. discriminate.
  - split; [exact Heq|]. split; [exact Hphase|]. rewrite Hpad. reflexivity.
Defined.

(** C7 (counterexample): after the decrypt of a ten-symbol ciphertext the
    session is in DecryptedActive(300), every value is held, and 300 ticks
    later the session shows the pad entry of the decrypt mode, which is
    AwaitingPad and not Idle. *)
Lemma ticks_300_not_idle :
  phase decrypted = DecryptedActive 300 /\
  message decrypted = lit "HOLA MUNDO" /\
  phase (ticks 300 decrypted) = AwaitingPad /\
  modeScreen (ticks 300 decrypted) = Some decrypt /\
  phase (ticks 300 decrypted) <> Idle.
Proof.
  repeat split; try (vm_compute; reflexivity).
  vm_compute. discriminate.
Qed.

(** C7 (amended): a successful decrypt puts the session in
    DecryptedActive(300); each tick takes DecryptedActive(n) to
    DecryptedActive(n-1) for n > 1, and the tick from DecryptedActive(1)
    erases the plaintext, the pad, the ciphertext and the pad input and
    leaves the session in AwaitingPad, the decrypt mode still selected; hence
    300 ticks drive the session to AwaitingPad with all of them empty. *)
Theorem countdown_expiry (U : UnicodeData) (s : Session) :
  settled s ->
  modeScreen s = Some decrypt ->
  decryptStep s = ready ->
  normalizeInput (cipher s) alphabet <> [] ->
  length (normalizeInput (cipher s) alphabet) = length (pad s) ->
  phase (dispatch ClickDecrypt s) = DecryptedActive 300 /\
  (forall (t : Session) (n : Z),
     settled t -> phase t = DecryptedActive n ->
     (1 < n ->
      dispatch Tick t = setCountdown (Some (n - 1)) t /\
      phase (dispatch Tick t) = DecryptedActive (n - 1)) /\
     (n = 1 ->
      phase (dispatch Tick t) = AwaitingPad /\
      message (dispatch Tick t) = [] /\ pad (dispatch Tick t) = [] /\
      cipher (dispatch Tick t) = [] /\ padInput (dispatch Tick t) = [])) /\
  (forall k : nat, (k < 300)%nat ->
     phase (ticks k (dispatch ClickDecrypt s)) = DecryptedActive (300 - Z.of_nat k)) /\
  phase (ticks 300 (dispatch ClickDecrypt s)) = AwaitingPad /\
  message (ticks 300 (dispatch ClickDecrypt s)) = [] /\
  pad (ticks 300 (dispatch ClickDecrypt s)) = [] /\
  cipher (ticks 300 (dispatch ClickDecrypt s)) = [] /\
  padInput (ticks 300 (dispatch ClickDecrypt s)) = [] /\
  countdown (ticks 300 (dispatch ClickDecrypt s)) = None /\
  interval (ticks 300 (dispatch ClickDecrypt s)) = false.
Proof.
  intros Hs Hmode Hstep Hne Hlen.
  destruct (decrypt_starts_countdown s Hs Hstep Hne Hlen) as (Hs0 & Hm0 & Hd0 & Hc0).
  set (s0 := dispatch ClickDecrypt s) in *.
  rewrite Hmode in Hm0.
  split.
  { unfold phase. rewrite Hm0, Hd0, Hc0. reflexivity. }
  split.
  { intros t n Ht Hphase.
    destruct (phase_DecryptedActive t n Hphase) as (Hm & Hd & Hc).
    split.
    - intros Hn. rewrite (tick_decrement t n Ht Hc Hn).
      split; [reflexivity|].
      unfold phase in *. cbn [modeScreen decryptStep countdown setCountdown].
      rewrite Hm, Hd. reflexivity.
    - intros ->. rewrite (tick_expire t Ht Hc).
      rewrite phase_reset, Hm. repeat split. }
  split.
  { intros k Hk. rewrite (ticks_decrement k s0 300 Hs0 Hc0) by lia.
    unfold phase. cbn [modeScreen decryptStep countdown setCountdown].
    rewrite Hm0, Hd0. reflexivity. }
  rewrite (ticks_expire 299 s0 Hs0 Hc0).
  rewrite phase_reset, Hm0. repeat split.
Qed.

Lemma countdown_expiry_witness :
  phase (dispatch ClickDecrypt (dispatch (ChangeCipher (lit "HPND.Q0TLX")) pad_accepted)) =
    DecryptedActive 300 /\
  phase (ticks 299 (dispatch ClickDecrypt
           (dispatch (ChangeCipher (lit "HPND.Q0TLX")) pad_accepted))) =
    DecryptedActive 1 /\
  phase (ticks 300 (dispatch ClickDecrypt
           (dispatch (ChangeCipher (lit "HPND.Q0TLX")) pad_accepted))) = AwaitingPad /\
  message (ticks 300 (dispatch ClickDecrypt
           (dispatch (ChangeCipher (lit "HPND.Q0TLX")) pad_accepted))) = [].
Proof.
  destruct (countdown_expiry Latin1
              (dispatch (ChangeCipher (lit "HPND.Q0TLX")) pad_accepted))
    as (H300 & _ & Hk & Hend & Hmsg & _).
  - vm_compute. reflexivity.
  - reflexivity.
  - reflexivity.
  - vm_compute. discriminate.
  - reflexivity.
  - split; [exact H300|]. split; [exact (Hk 299%nat ltac:(lia))|].
    split; [exact Hend | exact Hmsg].
Defined.

(** C8 (counterexample): a clear issued in DecryptedActive(150) leaves the
    session at the pad entry of the decrypt mode, which is AwaitingPad and
    not Idle. *)
Lemma clear_not_idle :
  phase decrypted_150 = DecryptedActive 150 /\
  phase (dispatch ClickClear decrypted_150) = AwaitingPad /\
  modeScreen (dispatch ClickClear decrypted_150) = Some decrypt /\
  phase (dispatch ClickClear decrypted_150) <> Idle.
Proof.
  repeat split; try (vm_compute; reflexivity).
  vm_compute. discriminate.
Qed.

(** C8 (amended): in every state that the session reaches from mount, a
    clear erases the message, the ciphertext, the pad and the pad input,
    removes the countdown and cancels its interval, so that no later tick
    changes the session; the selected mode is kept, and the session returns
    to the first step of that mode: AwaitingPad in decrypt mode,
    MessageEntry in encrypt mode, Idle when no mode is selected. *)
Theorem clear_resets_session (U : UnicodeData) (es : list Event) :
  message (dispatch ClickClear (run es mount)) = [] /\
  cipher (dispatch ClickClear (run es mount)) = [] /\
  pad (dispatch ClickClear (run es mount)) = [] /\
  padInput (dispatch ClickClear (run es mount)) = [] /\
  countdown (dispatch ClickClear (run es mount)) = None /\
  interval (dispatch ClickClear (run es mount)) = false /\
  modeScreen (dispatch ClickClear (run es mount)) = modeScreen (run es mount) /\
  phase (dispatch ClickClear (run es mount)) =
    match modeScreen (run es mount) with
    | None => Idle
    | Some encrypt => MessageEntry
    | Some decrypt => AwaitingPad
    end /\
  (forall k : nat,
     ticks k (dispatch ClickClear (run es mount)) = dispatch ClickClear (run es mount)).
Proof.
  rewrite (clear_resets (run es mount) (run_settled es mount mount_settled)).
  do 7 (split; [reflexivity|]).
  split; [apply phase_reset|].
  intros k. apply ticks_idle. reflexivity.
Qed.

(** * Further properties of the code *)

(** ** Index codec *)

Lemma indexOf_from_elem (a : jsstring) (c : N) (k : Z) :
  c ∈ a -> exists i : nat, indexOf_from a c k = k + Z.of_nat i /\ a !! i = Some c.
Proof.
  revert k. induction a as [|d a IH]; intros k Hin.
  - apply elem_of_nil in Hin. destruct Hin.
  - simpl. destruct (N.eqb_spec d c) as [->|Hne].
    + exists 0%nat. split; [lia | reflexivity].
    + apply elem_of_cons in Hin as [->|Hin]; [congruence|].
      destruct (IH (k + 1) Hin) as (i & Hi & Hl).
      exists (S i). split; [lia | exact Hl].
Qed.

Lemma indexOf_from_not_elem (a : jsstring) (c : N) (k : Z) :
  c ∉ a -> indexOf_from a c k = -1.
Proof.
  revert k. induction a as [|d a IH]; intros k Hin; simpl.
  - reflexivity.
  - apply not_elem_of_cons in Hin as [Hne Hin].
    destruct (N.eqb_spec d c) as [->|_]; [congruence|]. apply IH, Hin.
Qed.

(** [alphabet[alphabet.indexOf(ch)]] is [ch] for a member of the alphabet
    and [undefined] for any other character. *)
Lemma js_at_indexOf (a : jsstring) (c : N) :
  js_at a (indexOf a c) = if decide (c ∈ a) then Some c else None.
Proof.
  unfold indexOf, js_at. destruct (decide (c ∈ a)) as [Hin|Hin].
  - destruct (indexOf_from_elem a c 0 Hin) as (i & -> & Hl).
    destruct (Z.leb_spec 0 (0 + Z.of_nat i)); [|lia].
    replace (Z.to_nat (0 + Z.of_nat i)) with i by lia. exact Hl.
  - rewrite (indexOf_from_not_elem a c 0 Hin). reflexivity.
Qed.

Lemma toIndices_index_sequence (a t : jsstring) :
  Forall (fun c => c ∈ a) t ->
  IndexSequence (Z.of_nat (length a)) (toIndices t a).
Proof.
  intros Ht. unfold IndexSequence, toIndices.
  induction Ht as [|c t Hc Ht IH]; simpl; constructor; [|exact IH].
  destruct (indexOf_from_elem a c 0 Hc) as (i & Hi & Hl).
  simpl. rewrite Hi. apply lookup_lt_Some in Hl. lia.
Qed.

Lemma fromIndices_toIndices_filter (a t : jsstring) :
  fromIndices (toIndices t a) a = filter (fun c => c ∈ a) t.
Proof.
  unfold fromIndices, toIndices. induction t as [|c t IH].
  - reflexivity.
  - cbn [map]. rewrite bind_cons, js_at_indexOf, filter_cons, IH.
    destruct (decide (c ∈ a)); reflexivity.
Qed.

(** X1: turning a text into indices and back keeps exactly the characters
    of the alphabet, in their order: a character outside the alphabet gets
    the index -1 and leaves no trace in the text rebuilt from the indices. *)
Theorem codec_drops_foreign_characters (a t : jsstring) :
  fromIndices (toIndices t a) a = filter (fun c => c ∈ a) t /\
  Forall (fun '(c, i) => c ∉ a <-> i = Int (-1)) (zip t (toIndices t a)).
Proof.
  split; [apply fromIndices_toIndices_filter|].
  unfold toIndices. induction t as [|c t IH]; simpl; constructor; [|exact IH].
  split.
  - intros Hc. unfold indexOf. rewrite (indexOf_from_not_elem a c 0 Hc). reflexivity.
  - intros Hi Hc. unfold indexOf in Hi.
    destruct (indexOf_from_elem a c 0 Hc) as (i & Heq & _).
    rewrite Heq in Hi. injection Hi as Hi. lia.
Qed.

(** X2: over an alphabet without duplicates the codec is a bijection
    between the texts over the alphabet and the index sequences: each
    direction keeps the length and undoes the other. *)
Theorem codec_bijection (a t : jsstring) (idx : list number) :
  NoDup a ->
  (Forall (fun c => c ∈ a) t ->
   length (toIndices t a) = length t /\
   IndexSequence (Z.of_nat (length a)) (toIndices t a) /\
   fromIndices (toIndices t a) a = t) /\
  (IndexSequence (Z.of_nat (length a)) idx ->
   length (fromIndices idx a) = length idx /\
   Forall (fun c => c ∈ a) (fromIndices idx a) /\
   toIndices (fromIndices idx a) a = idx).
Proof.
  intros Hnd. split.
  - intros Ht. split; [apply length_map|].
    split; [apply toIndices_index_sequence, Ht|].
    rewrite fromIndices_toIndices_filter.
    induction Ht as [|c t Hc Ht IH]; [reflexivity|].
    rewrite filter_cons_True by assumption. f_equal. exact IH.
  - apply fromIndices_index_sequence, Hnd.
Qed.

Lemma codec_bijection_witness :
  fromIndices (toIndices (lit "HOLA MUNDO") UNIFIED_ALPHABET) UNIFIED_ALPHABET =
    lit "HOLA MUNDO" /\
  toIndices (fromIndices [Int 7; Int 14; Int 63] UNIFIED_ALPHABET) UNIFIED_ALPHABET =
    [Int 7; Int 14; Int 63].
Proof.
  destruct (codec_bijection UNIFIED_ALPHABET (lit "HOLA MUNDO") [Int 7; Int 14; Int 63])
    as [Ht Hidx].
  - apply (bool_decide_unpack _). vm_compute. exact I.
  - split.
    + apply Ht. apply (bool_decide_unpack _). vm_compute. exact I.
    + apply Hidx. repeat constructor; simpl; lia.
Defined.

(** ** Cipher engine *)

(** The values at one position of two index sequences of equal length. *)
Lemma index_pair (M : Z) (m p : list number) (i : nat) (v : number) :
  length m = length p -> IndexSequence M m -> IndexSequence M p ->
  m !! i = Some v ->
  exists x y, v = Int x /\ p !! i = Some (Int y) /\ 0 <= x < M /\ 0 <= y < M.
Proof.
  intros Hlen Hm Hp Hv.
  assert (Hw : is_Some (p !! i)).
  { apply lookup_lt_is_Some_2. rewrite <- Hlen. eapply lookup_lt_Some, Hv. }
  destruct Hw as [w Hw].
  pose proof (Forall_lookup_1 _ _ _ _ Hm Hv) as Hx.
  pose proof (Forall_lookup_1 _ _ _ _ Hp Hw) as Hy.
  apply is_index_Int in Hx as (x & -> & Hx).
  apply is_index_Int in Hy as (y & -> & Hy).
  exists x, y. auto.
Qed.

Lemma add_in_range (M x y : Z) :
  0 <= x < M -> 0 <= y < M -> is_index M (js_rem (js_add (Int x) (Int y)) (Int M)).
Proof.
  intros Hx Hy. simpl.
  destruct (Z.eqb_spec M 0) as [?|_]; [lia|]. simpl.
  rewrite Z.rem_mod_nonneg by lia. apply Z.mod_pos_bound. lia.
Qed.

(** One position of decode followed by encode. *)
Lemma sub_add_cancel (M x y : Z) :
  0 <= x < M -> 0 <= y < M ->
  js_rem (js_add (js_rem (js_add (js_rem (js_sub (Int x) (Int y)) (Int M)) (Int M))
                    (Int M)) (Int y)) (Int M) = Int x.
Proof.
  intros Hx Hy. simpl.
  assert (HM : (M =? 0) = false) by (apply Z.eqb_neq; lia).
  rewrite HM. simpl. rewrite HM. simpl. rewrite HM. f_equal.
  destruct (Z_le_gt_dec y x) as [Hle|Hgt].
  - rewrite (Z.rem_small (x - y) M) by lia.
    rewrite (Z.rem_mod_nonneg (x - y + M) M) by lia.
    replace (x - y + M) with (x - y + 1 * M) by lia.
    rewrite Z.mod_add by lia. rewrite (Z.mod_small (x - y) M) by lia.
    replace (x - y + y) with x by lia. apply Z.rem_small; lia.
  - replace (x - y) with (- (y - x)) by lia.
    rewrite Z.rem_opp_l by lia. rewrite (Z.rem_small (y - x) M) by lia.
    rewrite (Z.rem_small (- (y - x) + M) M) by lia.
    replace (- (y - x) + M + y) with (x + 1 * M) by lia.
    rewrite Z.rem_mod_nonneg by lia. rewrite Z.mod_add by lia.
    apply Z.mod_small; lia.
Qed.

Lemma otpAdd_in_range (M : Z) (m p : list number) :
  length m = length p -> IndexSequence M m -> IndexSequence M p ->
  IndexSequence M (otpAdd m p (Int M)).
Proof.
  intros Hlen Hm Hp. apply Forall_lookup_2. intros i v.
  rewrite otpAdd_lookup.
  destruct (m !! i) as [a|] eqn:Ha; simpl; [|discriminate].
  destruct (index_pair M m p i a Hlen Hm Hp Ha) as (x & y & -> & -> & Hx & Hy).
  intros [= <-]. apply add_in_range; assumption.
Qed.

Lemma otpSub_in_range (M : Z) (c p : list number) :
  length c = length p -> IndexSequence M c -> IndexSequence M p ->
  IndexSequence M (otpSub c p (Int M)).
Proof.
  intros Hlen Hc Hp. apply Forall_lookup_2. intros i v.
  rewrite otpSub_lookup.
  destruct (c !! i) as [a|] eqn:Ha; simpl; [|discriminate].
  destruct (index_pair M c p i a Hlen Hc Hp Ha) as (x & y & -> & -> & Hx & Hy).
  intros [= <-]. apply sub_in_range. lia.
Qed.

Lemma otpSub_otpAdd (M : Z) (m p : list number) :
  length m = length p -> IndexSequence M m -> IndexSequence M p ->
  otpSub (otpAdd m p (Int M)) p (Int M) = m.
Proof.
  intros Hlen Hm Hp. apply list_eq. intros i.
  rewrite otpSub_lookup, otpAdd_lookup.
  destruct (m !! i) as [v|] eqn:Hv; simpl; [|reflexivity].
  destruct (index_pair M m p i v Hlen Hm Hp Hv) as (x & y & -> & -> & Hx & Hy).
  simpl ToNumber. f_equal. apply add_sub_cancel; assumption.
Qed.

Lemma otpAdd_otpSub (M : Z) (c p : list number) :
  length c = length p -> IndexSequence M c -> IndexSequence M p ->
  otpAdd (otpSub c p (Int M)) p (Int M) = c.
Proof.
  intros Hlen Hc Hp. apply list_eq. intros i.
  rewrite otpAdd_lookup, otpSub_lookup.
  destruct (c !! i) as [v|] eqn:Hv; simpl; [|reflexivity].
  destruct (index_pair M c p i v Hlen Hc Hp Hv) as (x & y & -> & -> & Hx & Hy).
  simpl ToNumber. f_equal. apply sub_add_cancel; assumption.
Qed.

Lemma js_add_comm (a b : number) : js_add a b = js_add b a.
Proof. destruct a, b; simpl; try reflexivity. f_equal. lia. Qed.

Lemma otpAdd_comm (m p : list number) (md : number) :
  length m = length p -> otpAdd m p md = otpAdd p m md.
Proof.
  intros Hlen. apply list_eq. intros i. rewrite !otpAdd_lookup.
  destruct (m !! i) as [v|] eqn:Hv, (p !! i) as [w|] eqn:Hw; simpl.
  - rewrite js_add_comm. reflexivity.
  - apply lookup_lt_Some in Hv. apply lookup_ge_None_1 in Hw. lia.
  - apply lookup_lt_Some in Hw. apply lookup_ge_None_1 in Hv. lia.
  - reflexivity.
Qed.

(** X3: encoding index sequences of equal length gives an index sequence
    again, and encoding what decode returned, with the same pad, gives the
    ciphertext back: encode and decode with a fixed pad are inverse to each
    other in both orders. *)
Theorem otp_encode_decode (M : Z) (c p : list number) :
  length c = length p ->
  IndexSequence M c ->
  IndexSequence M p ->
  IndexSequence M (otpAdd c p (Int M)) /\
  otpAdd (otpSub c p (Int M)) p (Int M) = c.
Proof.
  intros Hlen Hc Hp. split.
  - apply otpAdd_in_range; assumption.
  - apply otpAdd_otpSub; assumption.
Qed.

Lemma otp_encode_decode_witness :
  IndexSequence 64 (otpAdd [Int 7; Int 0; Int 63] [Int 60; Int 0; Int 63] (Int 64)) /\
  otpAdd (otpSub [Int 7; Int 0; Int 63] [Int 60; Int 0; Int 63] (Int 64))
         [Int 60; Int 0; Int 63] (Int 64) = [Int 7; Int 0; Int 63].
Proof.
  apply (otp_encode_decode 64 [Int 7; Int 0; Int 63] [Int 60; Int 0; Int 63]).
  - reflexivity.
  - repeat constructor; simpl; lia.
  - repeat constructor; simpl; lia.
Defined.

(** X4: for a message and a ciphertext of equal length there is exactly
    one pad that encodes the one into the other, the decode of the
    ciphertext by the message; so every ciphertext can come from every
    message of its length, and message and pad can be exchanged in encode. *)
Theorem otp_unique_pad (M : Z) (m c p : list number) :
  length m = length c ->
  length p = length m ->
  IndexSequence M m ->
  IndexSequence M c ->
  IndexSequence M p ->
  (otpAdd m p (Int M) = c <-> p = otpSub c m (Int M)) /\
  otpAdd m (otpSub c m (Int M)) (Int M) = c /\
  otpAdd m p (Int M) = otpAdd p m (Int M).
Proof.
  intros Hmc Hpm Hm Hc Hp.
  assert (Hback : otpAdd m (otpSub c m (Int M)) (Int M) = c).
  { rewrite otpAdd_comm by (rewrite otpSub_length; exact Hmc).
    apply otpAdd_otpSub; [symmetry|..]; assumption. }
  split; [|split; [exact Hback | apply otpAdd_comm; symmetry; exact Hpm]].
  split.
  - intros <-. rewrite (otpAdd_comm m p) by (symmetry; exact Hpm).
    symmetry. apply otpSub_otpAdd; assumption.
  - intros ->. exact Hback.
Qed.

Lemma otp_unique_pad_witness :
  (otpAdd [Int 7; Int 15] [Int 60; Int 1] (Int 64) = [Int 3; Int 16] <->
   [Int 60; Int 1] = otpSub [Int 3; Int 16] [Int 7; Int 15] (Int 64)) /\
  otpAdd [Int 7; Int 15] (otpSub [Int 3; Int 16] [Int 7; Int 15] (Int 64)) (Int 64) =
    [Int 3; Int 16] /\
  otpAdd [Int 7; Int 15] [Int 60; Int 1] (Int 64) =
    otpAdd [Int 60; Int 1] [Int 7; Int 15] (Int 64).
Proof.
  apply (otp_unique_pad 64 [Int 7; Int 15] [Int 3; Int 16] [Int 60; Int 1]);
    first [reflexivity | repeat constructor; simpl; lia].
Defined.

Lemma text_round_trip_codec (a m p : jsstring) :
  NoDup a ->
  Forall (fun c => c ∈ a) m ->
  Forall (fun c => c ∈ a) p ->
  length m = length p ->
  length (fromIndices (otpAdd (toIndices m a) (toIndices p a) (js_length a)) a) =
    length m /\
  Forall (fun c => c ∈ a)
    (fromIndices (otpAdd (toIndices m a) (toIndices p a) (js_length a)) a) /\
  fromIndices
    (otpSub (toIndices
               (fromIndices (otpAdd (toIndices m a) (toIndices p a) (js_length a)) a) a)
            (toIndices p a) (js_length a)) a = m.
Proof.
  intros Hnd Hm Hp Hlen. unfold js_length.
  set (M := Z.of_nat (length a)).
  pose proof (toIndices_index_sequence a m Hm) as Hmi.
  pose proof (toIndices_index_sequence a p Hp) as Hpi.
  assert (Hli : length (toIndices m a) = length (toIndices p a)).
  { unfold toIndices. rewrite !length_map. exact Hlen. }
  pose proof (otpAdd_in_range M _ _ Hli Hmi Hpi) as Hci.
  destruct (fromIndices_index_sequence a _ Hnd Hci) as (Hl & Hin & Hto).
  split; [|split; [exact Hin|]].
  - rewrite Hl, otpAdd_length. unfold toIndices. apply length_map.
  - rewrite Hto, (otpSub_otpAdd M _ _ Hli Hmi Hpi).
    rewrite fromIndices_toIndices_filter.
    clear -Hm. induction Hm as [|c t Hc Ht IH]; [reflexivity|].
    rewrite filter_cons_True by assumption. f_equal. exact IH.
Qed.

(** X5: for a message and a pad written over an alphabet without
    duplicates, of equal length, the ciphertext shown has the length of the
    message and is written over the alphabet, and decoding the indices of
    the ciphertext text with the indices of the pad gives the message back. *)
Theorem text_round_trip (a m p : jsstring) :
  NoDup a ->
  Forall (fun c => c ∈ a) m ->
  Forall (fun c => c ∈ a) p ->
  length m = length p ->
  length (fromIndices (otpAdd (toIndices m a) (toIndices p a) (js_length a)) a) =
    length m /\
  Forall (fun c => c ∈ a)
    (fromIndices (otpAdd (toIndices m a) (toIndices p a) (js_length a)) a) /\
  fromIndices
    (otpSub (toIndices
               (fromIndices (otpAdd (toIndices m a) (toIndices p a) (js_length a)) a) a)
            (toIndices p a) (js_length a)) a = m.
Proof. apply text_round_trip_codec. Qed.

Lemma text_round_trip_witness :
  fromIndices
    (otpSub (toIndices
               (fromIndices (otpAdd (toIndices (lit "HOLA MUNDO") UNIFIED_ALPHABET)
                                    (toIndices (lit "ABCDEFGHIJ") UNIFIED_ALPHABET)
                                    (js_length UNIFIED_ALPHABET)) UNIFIED_ALPHABET)
               UNIFIED_ALPHABET)
            (toIndices (lit "ABCDEFGHIJ") UNIFIED_ALPHABET)
            (js_length UNIFIED_ALPHABET)) UNIFIED_ALPHABET = lit "HOLA MUNDO".
Proof.
  apply (text_round_trip UNIFIED_ALPHABET (lit "HOLA MUNDO") (lit "ABCDEFGHIJ")).
  - apply (bool_decide_unpack _). vm_compute. exact I.
  - apply (bool_decide_unpack _). vm_compute. exact I.
  - apply (bool_decide_unpack _). vm_compute. exact I.
  - reflexivity.
Defined.

(** ** Normalizer *)

Section NormalizerExtras.
Context {U : UnicodeData} {HU : UnicodeFacts U}.

Lemma bind_singleton (f : N -> list N) (c : N) : [c] ≫= f = f c.
Proof. rewrite bind_cons. apply app_nil_r. Qed.

Lemma normalizeInput_single (c : N) :
  normalizeInput [c] UNIFIED_ALPHABET =
  filter (fun d => d ∈ UNIFIED_ALPHABET /\ is_diacritic d = false)
    (uppercase_mapping c ≫= canonical_decomposition).
Proof.
  rewrite normalizeInput_filter. unfold toUpperCase.
  rewrite bind_singleton. reflexivity.
Qed.

Lemma normalizeInput_cons (c : N) (x : jsstring) :
  normalizeInput (c :: x) UNIFIED_ALPHABET =
  normalizeInput [c] UNIFIED_ALPHABET ++ normalizeInput x UNIFIED_ALPHABET.
Proof. apply (normalizeInput_app [c] x). Qed.

Lemma normalizeInput_basic_latin (c : N) :
  (forall l : N, (0x61 <= l <= 0x7A)%N -> uppercase_mapping l = [(l - 0x20)%N]) ->
  (c < 0x80)%N ->
  normalizeInput [c] UNIFIED_ALPHABET =
  filter (fun d => d ∈ UNIFIED_ALPHABET) [ascii_uppercase c].
Proof.
  intros Hlower Hc. rewrite normalizeInput_single.
  assert (Hup : uppercase_mapping c = [ascii_uppercase c] /\ (ascii_uppercase c < 0x80)%N).
  { unfold ascii_uppercase.
    destruct (N.leb_spec 0x61 c), (N.leb_spec c 0x7A); simpl;
      try (split; [apply basic_latin_uppercase; lia | lia]).
    split; [apply Hlower; lia | lia]. }
  destruct Hup as [-> Hu]. rewrite bind_singleton.
  rewrite (basic_latin_decomposition _ Hu).
  assert (Hd : is_diacritic (ascii_uppercase c) = false).
  { unfold is_diacritic. destruct (N.leb_spec 0x300 (ascii_uppercase c)); [lia|reflexivity]. }
  rewrite !filter_cons, !filter_nil.
  destruct (decide (ascii_uppercase c ∈ UNIFIED_ALPHABET)) as [Hin|Hin].
  - destruct (decide _) as [_|Hn]; [reflexivity|]. destruct Hn. split; assumption.
  - destruct (decide _) as [[Hy _]|_]; [contradiction|reflexivity].
Qed.

End NormalizerExtras.

(** X6: whatever the input, the engine and the alphabet, every character of
    the normalized text is a member of the alphabet and none is a combining
    mark of the block U+0300 to U+036F; with an empty alphabet or an empty
    input the result is the empty string. *)
Theorem normalizeInput_over_alphabet (U : UnicodeData) (x a : jsstring) :
  Forall (fun c => c ∈ a /\ is_diacritic c = false) (normalizeInput x a) /\
  normalizeInput x [] = [] /\
  normalizeInput [] a = [].
Proof.
  split; [|split].
  - apply Forall_forall. intros c Hc.
    apply normalizeInput_elem in Hc as (Ha & Hd & _). split; assumption.
  - destruct (normalizeInput x []) as [|c l] eqn:Hn; [reflexivity|].
    assert (Hc : c ∈ normalizeInput x []) by (rewrite Hn; left).
    apply normalizeInput_elem in Hc as (Ha & _). apply elem_of_nil in Ha. destruct Ha.
  - reflexivity.
Qed.

(** X7: the strings that normalization leaves unchanged are exactly the
    strings made of alphabet symbols other than U+00D1. *)
Theorem normalizeInput_fixed_points (U : UnicodeData) (HU : UnicodeFacts U)
    (y : jsstring) :
  normalizeInput y UNIFIED_ALPHABET = y <->
  Forall (fun c => c ∈ UNIFIED_ALPHABET /\ c <> N_TILDE) y.
Proof.
  split.
  - intros Heq. rewrite <- Heq. apply normalizeInput_plain.
  - apply normalizeInput_fixed.
Qed.

Lemma normalizeInput_fixed_points_witness :
  normalizeInput (lit "@#$/+*<>[]{}()") UNIFIED_ALPHABET = lit "@#$/+*<>[]{}()" <->
  Forall (fun c => c ∈ UNIFIED_ALPHABET /\ c <> N_TILDE) (lit "@#$/+*<>[]{}()").
Proof. apply (normalizeInput_fixed_points Latin1 Latin1_facts). Defined.

(** X8: normalization works character by character: the normalized text is
    the concatenation of the normalizations of the single characters, so
    normalizing a concatenation is concatenating the normalizations. *)
Theorem normalizeInput_characterwise (U : UnicodeData) (HU : UnicodeFacts U)
    (x y : jsstring) :
  normalizeInput x UNIFIED_ALPHABET =
    x ≫= (fun c => normalizeInput [c] UNIFIED_ALPHABET) /\
  normalizeInput (x ++ y) UNIFIED_ALPHABET =
    normalizeInput x UNIFIED_ALPHABET ++ normalizeInput y UNIFIED_ALPHABET.
Proof.
  split; [|apply normalizeInput_app].
  induction x as [|c x IH]; [reflexivity|].
  rewrite normalizeInput_cons, bind_cons, <- IH. reflexivity.
Qed.

Lemma normalizeInput_characterwise_witness :
  normalizeInput (lit "ni" ++ [0xF1%N]) UNIFIED_ALPHABET =
    (lit "ni" ++ [0xF1%N]) ≫= (fun c => normalizeInput [c] UNIFIED_ALPHABET) /\
  normalizeInput ((lit "ni" ++ [0xF1%N]) ++ lit "o 1") UNIFIED_ALPHABET =
    normalizeInput (lit "ni" ++ [0xF1%N]) UNIFIED_ALPHABET ++
    normalizeInput (lit "o 1") UNIFIED_ALPHABET.
Proof.
  apply (normalizeInput_characterwise Latin1 Latin1_facts (lit "ni" ++ [0xF1%N]) (lit "o 1")).
Defined.

(** X9: on Basic Latin input, normalization uppercases the letters a to z
    and drops the characters that are not in the alphabet, nothing else: the
    result is never longer than the input, and two inputs that differ only
    in the case of their letters have the same normalization. *)
Theorem normalizeInput_basic_latin_input (U : UnicodeData) (HU : UnicodeFacts U)
    (x : jsstring) :
  (forall l : N, (0x61 <= l <= 0x7A)%N -> uppercase_mapping l = [(l - 0x20)%N]) ->
  Forall (fun c => (c < 0x80)%N) x ->
  normalizeInput x UNIFIED_ALPHABET =
    filter (fun c => c ∈ UNIFIED_ALPHABET) (map ascii_uppercase x) /\
  (length (normalizeInput x UNIFIED_ALPHABET) <= length x)%nat /\
  normalizeInput (map ascii_uppercase x) UNIFIED_ALPHABET =
    normalizeInput x UNIFIED_ALPHABET.
Proof.
  intros Hlower Hx.
  assert (Heq : forall z, Forall (fun c => (c < 0x80)%N) z ->
            normalizeInput z UNIFIED_ALPHABET =
            filter (fun c => c ∈ UNIFIED_ALPHABET) (map ascii_uppercase z)).
  { intros z Hz. induction Hz as [|c z Hc Hz IH]; [reflexivity|].
    rewrite normalizeInput_cons, (normalizeInput_basic_latin c Hlower Hc), IH.
    cbn [map]. rewrite <- filter_app. reflexivity. }
  assert (Hidem : forall c, ascii_uppercase (ascii_uppercase c) = ascii_uppercase c).
  { intros c. unfold ascii_uppercase.
    destruct (N.leb_spec 0x61 c), (N.leb_spec c 0x7A); simpl;
      repeat match goal with
             | |- context [(?a <=? ?b)%N] => destruct (N.leb_spec a b)
             end; simpl; lia. }
  split; [apply Heq, Hx|]. split.
  - rewrite (Heq x Hx).
    etransitivity; [apply length_filter|]. rewrite length_map. reflexivity.
  - rewrite Heq, (Heq x Hx).
    + rewrite map_map. f_equal. apply map_ext. intros c. apply Hidem.
    + apply Forall_forall. intros u Hu.
      apply list_elem_of_fmap in Hu as (c & -> & Hc).
      rewrite Forall_forall in Hx. specialize (Hx c Hc).
      unfold ascii_uppercase. destruct (_ && _)%N; lia.
Qed.

Lemma normalizeInput_basic_latin_input_witness :
  normalizeInput (lit "Hola, mundo ~ 42%") UNIFIED_ALPHABET = lit "HOLA, MUNDO  42" /\
  (length (normalizeInput (lit "Hola, mundo ~ 42%") UNIFIED_ALPHABET) <= 17)%nat.
Proof.
  destruct (normalizeInput_basic_latin_input Latin1 Latin1_facts (lit "Hola, mundo ~ 42%"))
    as (Heq & Hlen & _).
  - intros l Hl. simpl. unfold latin1_uppercase.
    destruct l as [|q]; [lia|].
    do 8 (destruct q as [q|q|]; try lia; try reflexivity).
  - apply (bool_decide_unpack _). vm_compute. exact I.
  - split; [rewrite Heq; vm_compute; reflexivity | exact Hlen].
Defined.

(** X10: normalization can lengthen a text: the sharp s (U+00DF) has the
    two-letter uppercase SS, so a text of n sharp s normalizes to 2n
    letters S. *)
Theorem normalizeInput_can_grow (U : UnicodeData) (HU : UnicodeFacts U) (n : nat) :
  uppercase_mapping 0xDF%N = [0x53; 0x53]%N ->
  normalizeInput (replicate n 0xDF%N) UNIFIED_ALPHABET = replicate (2 * n) 0x53%N /\
  length (normalizeInput (replicate n 0xDF%N) UNIFIED_ALPHABET) = (2 * n)%nat.
Proof.
  intros Hss.
  assert (Heq : normalizeInput (replicate n 0xDF%N) UNIFIED_ALPHABET =
                replicate (2 * n) 0x53%N).
  { induction n as [|n IH]; [reflexivity|].
    cbn [replicate]. rewrite normalizeInput_cons, IH, normalizeInput_single, Hss.
    rewrite bind_cons, bind_singleton.
    rewrite (basic_latin_decomposition 0x53%N) by lia.
    replace (2 * S n)%nat with (S (S (2 * n))) by lia.
    cbn [replicate app].
    rewrite !filter_cons_True, filter_nil;
      [reflexivity | | ]; (split; [apply (bool_decide_unpack _); vm_compute; exact I | reflexivity]). }
  split; [exact Heq|]. rewrite Heq. apply length_replicate.
Qed.

Lemma normalizeInput_can_grow_witness :
  normalizeInput (replicate 3 0xDF%N) UNIFIED_ALPHABET = replicate (2 * 3) 0x53%N /\
  length (normalizeInput (replicate 3 0xDF%N) UNIFIED_ALPHABET) = (2 * 3)%nat.
Proof. apply (normalizeInput_can_grow Latin1 Latin1_facts 3). reflexivity. Defined.

(** ** Pad generator *)

Lemma lookup_map {A B : Type} (f : A -> B) (l : list A) (i : nat) :
  map f l !! i = f <$> l !! i.
Proof. apply (list_lookup_fmap f l i). Qed.

(** The symbol drawn from a 32-bit word depends on its six low bits only. *)
Lemma word_residue (w : Z) : js_rem (Int (w mod 2 ^ 32)) (Int 64) = Int (w mod 64).
Proof.
  simpl. f_equal.
  pose proof (Z.mod_pos_bound w (2 ^ 32) ltac:(lia)) as Hb.
  rewrite Z.rem_mod_nonneg by lia.
  apply Z.mod_mod_divide. exists (2 ^ 26). reflexivity.
Qed.

Lemma randomPad_value (crypto : Crypto) (len : nat) :
  Z.of_nat len <= 16384 ->
  randomPad crypto len UNIFIED_ALPHABET =
  Ok (fromIndices (map (fun i => Int (random_word crypto i mod 64)) (seq 0 len))
        UNIFIED_ALPHABET).
Proof.
  intros Hlen. unfold randomPad.
  rewrite (getRandomValues_within_quota crypto len Hlen). simpl mbind.
  unfold mret, result_ret. do 2 f_equal.
  change (js_length UNIFIED_ALPHABET) with (Int 64).
  apply list_eq. intros i. rewrite !lookup_map, list_lookup_imap.
  unfold Uint32Array. destruct (decide (i < len)%nat) as [Hi|Hi].
  - rewrite lookup_replicate_2, lookup_seq_lt by lia. simpl.
    f_equal. apply word_residue.
  - rewrite (lookup_ge_None_2 (replicate len 0)) by (rewrite length_replicate; lia).
    rewrite lookup_seq_ge by lia. reflexivity.
Qed.

Lemma randomPad_quota (crypto : Crypto) (len : nat) (a : jsstring) :
  16384 < Z.of_nat len ->
  randomPad crypto len a = Throw (mkExn "QuotaExceededError" (quota_message crypto)).
Proof.
  intros Hlen. unfold randomPad, getRandomValues, byteLength, Uint32Array.
  rewrite length_replicate.
  destruct (Z.ltb_spec 65536 (4 * Z.of_nat len)) as [_|?]; [reflexivity|lia].
Qed.

Lemma word_indices_in_range (crypto : Crypto) (len : nat) :
  IndexSequence 64 (map (fun i => Int (random_word crypto i mod 64)) (seq 0 len)).
Proof.
  apply Forall_forall. intros v Hv.
  apply list_elem_of_fmap in Hv as (i & -> & _).
  simpl. apply Z.mod_pos_bound. lia.
Qed.

Lemma randomPad_Ok_inv (crypto : Crypto) (len : nat) (p : jsstring) :
  randomPad crypto len UNIFIED_ALPHABET = Ok p ->
  length p = len /\ Forall (fun c => c ∈ UNIFIED_ALPHABET) p.
Proof.
  destruct (Z_le_gt_dec (Z.of_nat len) 16384) as [Hle|Hgt].
  - rewrite (randomPad_value crypto len Hle). intros [= <-].
    destruct (fromIndices_index_sequence UNIFIED_ALPHABET _ alphabet_NoDup
                (word_indices_in_range crypto len)) as (Hl & Hin & _).
    split; [|exact Hin]. rewrite Hl, length_map. apply length_seq.
  - rewrite (randomPad_quota crypto len _ ltac:(lia)). discriminate.
Qed.

Lemma filter_ext_Forall {A : Type} (P Q : A -> Prop)
    `{!forall x, Decision (P x)} `{!forall x, Decision (Q x)} (l : list A) :
  Forall (fun x => P x <-> Q x) l -> filter P l = filter Q l.
Proof.
  induction 1 as [|x l Hx Hl IH]; [reflexivity|].
  destruct (decide (P x)) as [HP|HP].
  - rewrite !filter_cons_True by tauto. f_equal. exact IH.
  - rewrite !filter_cons_False by tauto. exact IH.
Qed.

Lemma pad_index_value (crypto : Crypto) (len i : nat) :
  Z.of_nat len <= 16384 -> (i < len)%nat ->
  pad_index crypto len i UNIFIED_ALPHABET = Some (Int (random_word crypto i mod 64)).
Proof.
  intros Hlen Hi. unfold pad_index. rewrite (randomPad_value crypto len Hlen).
  destruct (fromIndices_index_sequence UNIFIED_ALPHABET _ alphabet_NoDup
              (word_indices_in_range crypto len)) as (_ & _ & ->).
  rewrite lookup_map, lookup_seq_lt by exact Hi. reflexivity.
Qed.

Lemma with_word_at (crypto : Crypto) (i : nat) (n : Z) :
  random_word (with_word crypto i n) i = n.
Proof. unfold with_word. cbn [random_word]. rewrite decide_True; reflexivity. Qed.

(** C10: the alphabet has exactly 64 distinct symbols and 64 divides 2^32.
    At every position of a pad of at most 16384 symbols the index of the
    symbol that the pad generator returns for the 32-bit word n at that
    position is n % M, with M the length of the alphabet, and for each of the
    64 residues exactly 2^26 of the 2^32 values of the word give a pad with
    that index at the position, whatever the other words are. *)
Theorem pad_reduction_uniform :
  length UNIFIED_ALPHABET = 64%nat /\
  NoDup UNIFIED_ALPHABET /\
  2 ^ 32 mod 64 = 0 /\
  forall (crypto : Crypto) (len i : nat),
    Z.of_nat len <= 16384 -> (i < len)%nat ->
    Forall (fun n =>
              pad_index (with_word crypto i n) len i UNIFIED_ALPHABET =
              Some (js_rem (Int n) (js_length UNIFIED_ALPHABET)))
           (seqZ 0 (2 ^ 32)) /\
    Forall (fun r =>
              Z.of_nat (length (filter
                (fun n => pad_index (with_word crypto i n) len i UNIFIED_ALPHABET =
                          Some (Int r))
                (seqZ 0 (2 ^ 32)))) = 2 ^ 26)
           (seqZ 0 64).
Proof.
  split; [exact alphabet_length|]. split; [exact alphabet_NoDup|].
  split; [reflexivity|].
  intros crypto len i Hlen Hi.
  assert (Hred : Forall (fun n =>
            pad_index (with_word crypto i n) len i UNIFIED_ALPHABET =
            Some (js_rem (Int n) (js_length UNIFIED_ALPHABET))) (seqZ 0 (2 ^ 32))).
  { apply Forall_seqZ. intros n Hn.
    rewrite (pad_index_value _ len i Hlen Hi), with_word_at.
    change (js_length UNIFIED_ALPHABET) with (Int 64).
    simpl. rewrite Z.rem_mod_nonneg by lia. reflexivity. }
  split; [exact Hred|].
  apply Forall_seqZ. intros r Hr.
  rewrite (filter_ext_Forall _
             (fun n => js_rem (Int n) (Int 64) = Int r) (seqZ 0 (2 ^ 32))).
  - replace (2 ^ 32) with (64 * Z.of_nat (Z.to_nat (2 ^ 26))) by lia.
    rewrite residue_count by lia. lia.
  - eapply Forall_impl; [exact Hred|]. cbv beta. intros n ->.
    change (js_length UNIFIED_ALPHABET) with (Int 64).
    split; congruence.
Qed.

Lemma pad_reduction_uniform_witness :
  Z.of_nat (length (filter
    (fun n => pad_index (with_word words_4_9 3 n) 10 3 UNIFIED_ALPHABET = Some (Int 37))
    (seqZ 0 (2 ^ 32)))) = 2 ^ 26.
Proof.
  destruct pad_reduction_uniform as (_ & _ & _ & H).
  destruct (H words_4_9 10%nat 3%nat ltac:(lia) ltac:(lia)) as [_ Hcount].
  apply (proj1 (Forall_forall _ _) Hcount). apply elem_of_seqZ. lia.
Defined.

(** X11: for a request of at most 16384 symbols the generator returns a pad
    of exactly that length, written over the alphabet; the symbol at
    position i has the index w mod 64, where w is the i-th word of the
    random source, so only the six low bits of each word are used. *)
Theorem randomPad_symbols (crypto : Crypto) (len : nat) :
  Z.of_nat len <= 16384 ->
  exists padText : jsstring,
    randomPad crypto len UNIFIED_ALPHABET = Ok padText /\
    length padText = len /\
    Forall (fun c => c ∈ UNIFIED_ALPHABET) padText /\
    toIndices padText UNIFIED_ALPHABET =
      map (fun i => Int (random_word crypto i mod 64)) (seq 0 len).
Proof.
  intros Hlen. eexists. split; [apply randomPad_value, Hlen|].
  destruct (fromIndices_index_sequence UNIFIED_ALPHABET _ alphabet_NoDup
              (word_indices_in_range crypto len)) as (Hl & Hin & Hto).
  split; [|split; [exact Hin | exact Hto]].
  rewrite Hl, length_map. apply length_seq.
Qed.

Lemma randomPad_symbols_witness :
  exists padText : jsstring,
    randomPad words_4_9 3 UNIFIED_ALPHABET = Ok padText /\
    length padText = 3%nat /\
    Forall (fun c => c ∈ UNIFIED_ALPHABET) padText /\
    toIndices padText UNIFIED_ALPHABET =
      map (fun i => Int (random_word words_4_9 i mod 64)) (seq 0 3).
Proof. apply (randomPad_symbols words_4_9 3). simpl. lia. Defined.

(** X12: a request of more than 16384 symbols makes the random source
    refuse the buffer, whatever the alphabet, and an encryption of a message
    with more than 16384 normalized characters changes nothing but the
    status line, which shows the error of the source. *)
Theorem encrypt_over_quota (U : UnicodeData) (crypto : Crypto) (s : Session) :
  16384 < Z.of_nat (length (normalizeInput (message s) alphabet)) ->
  (forall a : jsstring,
     randomPad crypto (length (normalizeInput (message s) alphabet)) a =
     Throw (mkExn "QuotaExceededError" (quota_message crypto))) /\
  dispatch (ClickEncrypt crypto) s =
    setErr (exn_text (mkExn "QuotaExceededError" (quota_message crypto))) s.
Proof.
  intros Hlen. split; [intros a; apply randomPad_quota, Hlen|].
  unfold dispatch. cbn [handle]. unfold onEncrypt, onEncrypt_body.
  rewrite bool_decide_eq_false_2 by (intros H0; rewrite H0 in Hlen; simpl in Hlen; lia).
  cbn [throw_if mbind result_bind].
  rewrite (randomPad_quota crypto _ alphabet Hlen).
  cbn [mbind result_bind try_catch].
  apply commit_unchanged; reflexivity.
Qed.

Lemma encrypt_over_quota_witness :
  dispatch (ClickEncrypt words_4_9) long_message_entered =
    setErr "QuotaExceededError" long_message_entered.
Proof.
  destruct (encrypt_over_quota Latin1 words_4_9 long_message_entered) as [_ Heq].
  - change (message long_message_entered) with (replicate (Z.to_nat 16385) 0x41%N).
    unfold alphabet. rewrite normalizeInput_fixed.
    + rewrite length_replicate, Z2Nat.id; lia.
    + apply Forall_replicate. split; [|discriminate].
      apply (bool_decide_unpack _). vm_compute. exact I.
  - exact Heq.
Defined.

(** ** Session: what the handlers do *)

(** Computes the fields of a session built by the setters. *)
Ltac session_fields :=
  cbn [modeScreen decryptStep padInput message cipher pad status showEncryptResults
       countdown interval setModeScreen setDecryptStep setPadInput setMessage
       setCipher setPad setStatus setShowEncryptResults setCountdown setInterval
       clearInterval setOK setWarn setErr resetAll onClearAll].

Ltac session_fields_in H :=
  cbn [modeScreen decryptStep padInput message cipher pad status showEncryptResults
       countdown interval setModeScreen setDecryptStep setPadInput setMessage
       setCipher setPad setStatus setShowEncryptResults setCountdown setInterval
       clearInterval setOK setWarn setErr resetAll onClearAll] in H.

Lemma throw_if_Ok (b : bool) (msg : string) (u : unit) :
  throw_if b msg = Ok u -> b = false.
Proof. destruct b; [discriminate | reflexivity]. Qed.

Lemma pad_invariant_reset (s : Session) (iv : bool) :
  pad_invariant (if iv then setInterval (resetAll s) else clearInterval (resetAll s)).
Proof.
  unfold pad_invariant. destruct iv; session_fields; (split; [discriminate|]);
    (split; [constructor | discriminate]).
Qed.

Lemma pad_invariant_interval (s : Session) (iv : bool) :
  pad_invariant s ->
  pad_invariant (if iv then setInterval s else clearInterval s).
Proof. intros H. destruct iv; exact H. Qed.

Section SessionExtras.
Context {U : UnicodeData}.

(** A commit changes the interval at most, or resets the session. *)
Lemma commit_shape (prev cur : Session) :
  exists iv : bool,
    commit prev cur = (if iv then setInterval cur else clearInterval cur) \/
    commit prev cur = (if iv then setInterval (resetAll cur) else clearInterval (resetAll cur)).
Proof.
  unfold commit. change 2%nat with (S 1).
  remember 1%nat as b eqn:Hb. cbn [flushEffects]. subst b.
  unfold countdownEffect.
  destruct (bool_decide (modeScreen prev <> modeScreen cur)),
           (bool_decide (countdown prev <> countdown cur));
    autorewrite with session;
    try (destruct (countdown cur) as [n|] eqn:Hn; [destruct (n <=? 0)|]);
    cbn [orb]; rewrite ?flushEffects_reset; autorewrite with session; rewrite ?Hn;
    try (destruct (countdown cur) as [n|] eqn:Hn);
    destruct cur as [m d pi msg c p st sh cd iv]; simpl in *; subst; destruct iv;
    first [ exists true; left; reflexivity | exists false; left; reflexivity
          | exists true; right; reflexivity | exists false; right; reflexivity ].
Qed.

Lemma handle_pad_invariant (e : Event) (s : Session) :
  settled s -> pad_invariant s -> pad_invariant (handle e s).
Proof.
  intros Hs Hinv. destruct Hinv as (Hcd & Hpad & Hready).
  destruct e; cbn [handle]; try (split; [exact Hcd | split; [exact Hpad | exact Hready]]).
  - unfold onEncrypt. destruct (onEncrypt_body crypto s) as [s'|e] eqn:Hb; cbn [try_catch];
      [|split; [exact Hcd | split; [exact Hpad | exact Hready]]].
    apply bind_Ok_inv in Hb as (u & Hempty & Hb).
    apply bind_Ok_inv in Hb as (newPad & Hrp & Hb).
    injection Hb as <-. apply throw_if_Ok in Hempty.
    apply bool_decide_eq_false_1 in Hempty.
    apply randomPad_Ok_inv in Hrp as [Hl Hin].
    split; [exact Hcd|]. split; [exact Hin|].
    intros _ Hnil. session_fields_in Hnil. rewrite Hnil in Hl. simpl in Hl. congruence.
  - unfold onAcceptPadForDecrypt.
    destruct (onAcceptPadForDecrypt_body s) as [s'|e] eqn:Hb; cbn [try_catch];
      [|split; [exact Hcd | split; [exact Hpad | exact Hready]]].
    apply bind_Ok_inv in Hb as (u & Hempty & Hb).
    injection Hb as <-. apply throw_if_Ok in Hempty.
    apply bool_decide_eq_false_1 in Hempty.
    split; [|split].
    + intros n Hn. split; [apply (Hcd n Hn) | reflexivity].
    + apply Forall_forall. intros c Hc. session_fields_in Hc.
      apply normalizeInput_elem in Hc. tauto.
    + intros _ Hnil. session_fields_in Hnil. rewrite Hnil in Hempty. apply Hempty. reflexivity.
  - unfold onDecrypt. destruct (onDecrypt_body s) as [s'|e] eqn:Hb; cbn [try_catch];
      [|split; [exact Hcd | split; [exact Hpad | exact Hready]]].
    apply bind_Ok_inv in Hb as (u & Hstep & Hb).
    apply bind_Ok_inv in Hb as (u1 & _ & Hb).
    apply bind_Ok_inv in Hb as (u2 & _ & Hb).
    injection Hb as <-. apply throw_if_Ok in Hstep.
    split; [|split; [exact Hpad | exact Hready]].
    intros n Hn. session_fields_in Hn. injection Hn as <-.
    split; [lia|]. session_fields. destruct (decryptStep s); [discriminate | reflexivity].
  - unfold pad_invariant. session_fields. split; [discriminate|].
    split; [constructor | discriminate].
  - destruct (interval s) eqn:Hi;
      [|split; [exact Hcd | split; [exact Hpad | exact Hready]]].
    unfold settled in Hs. destruct (countdown s) as [n|] eqn:Hn; [|congruence].
    destruct (Hcd n eq_refl) as [Hle Hrd].
    split; [|split; [exact Hpad | exact Hready]].
    intros k Hk. unfold onInterval in Hk. rewrite Hn in Hk. session_fields_in Hk.
    injection Hk as <-. split; [lia | exact Hrd].
Qed.

Lemma dispatch_pad_invariant (e : Event) (s : Session) :
  settled s -> pad_invariant s -> pad_invariant (dispatch e s).
Proof.
  intros Hs Hinv. unfold dispatch.
  destruct (commit_shape s (handle e s)) as [iv [-> | ->]].
  - apply pad_invariant_interval, handle_pad_invariant; assumption.
  - apply pad_invariant_reset.
Qed.

Lemma run_pad_invariant (es : list Event) (s : Session) :
  settled s -> pad_invariant s -> pad_invariant (run es s).
Proof.
  revert s. induction es as [|e es IH]; intros s Hs Hinv; simpl; [assumption|].
  apply IH; [apply dispatch_settled, Hs | apply dispatch_pad_invariant; assumption].
Qed.

Lemma mount_pad_invariant : pad_invariant mount.
Proof. split; [discriminate|]. split; [constructor | discriminate]. Qed.

End SessionExtras.

(** X13: in every session reached from mount the interval is pending
    exactly while a countdown is set; a countdown lies between 1 and 300 and
    is only set once a pad is accepted; the stored pad is written over the
    alphabet, and an accepted pad is not empty. *)
Theorem reachable_invariant (U : UnicodeData) (es : list Event) :
  (interval (run es mount) = true <-> exists n, countdown (run es mount) = Some n) /\
  (forall n : Z, countdown (run es mount) = Some n ->
     1 <= n <= 300 /\ decryptStep (run es mount) = ready) /\
  Forall (fun c => c ∈ UNIFIED_ALPHABET) (pad (run es mount)) /\
  (decryptStep (run es mount) = ready -> pad (run es mount) <> []).
Proof.
  pose proof (run_settled es mount mount_settled) as Hs.
  destruct (run_pad_invariant es mount mount_settled mount_pad_invariant)
    as (Hcd & Hpad & Hready).
  split; [|split; [|split; [exact Hpad | exact Hready]]].
  - unfold settled in Hs. destruct (countdown (run es mount)) as [n|].
    + destruct Hs as [_ ->]. split; [eauto | reflexivity].
    + rewrite Hs. split; [discriminate | intros [n Hn]; discriminate].
  - intros n Hn. destruct (Hcd n Hn) as [Hle Hrd].
    unfold settled in Hs. rewrite Hn in Hs. split; [lia | exact Hrd].
Qed.

Section HandlerStates.
Context {U : UnicodeData}.

Lemma encrypt_success_state (crypto : Crypto) (s : Session) :
  normalizeInput (message s) alphabet <> [] ->
  Z.of_nat (length (normalizeInput (message s) alphabet)) <= 16384 ->
  dispatch (ClickEncrypt crypto) s =
  setOK "Cifrado listo. Copia el pad y el texto cifrado."
    (setShowEncryptResults true
      (setCipher
        (fromIndices
          (otpAdd (toIndices (normalizeInput (message s) alphabet) alphabet)
             (toIndices
               (fromIndices
                 (map (fun i => Int (random_word crypto i mod 64))
                    (seq 0 (length (normalizeInput (message s) alphabet))))
                 alphabet) alphabet) modulus) alphabet)
        (setPad
          (fromIndices
            (map (fun i => Int (random_word crypto i mod 64))
               (seq 0 (length (normalizeInput (message s) alphabet))))
            alphabet) s))).
Proof.
  intros Hne Hlen. unfold dispatch. cbn [handle]. unfold onEncrypt, onEncrypt_body.
  rewrite bool_decide_eq_false_2 by (intros H0; apply Hne, nil_length_inv, H0).
  cbn [throw_if mbind result_bind]. unfold alphabet in *.
  rewrite (randomPad_value crypto _ Hlen).
  cbn [mbind result_bind mret result_ret try_catch].
  apply commit_unchanged; reflexivity.
Qed.

Lemma accept_success_state (s : Session) :
  normalizeInput (padInput s) alphabet <> [] ->
  dispatch ClickAcceptPad s =
  setOK "PAD listo. Ahora pega el texto cifrado y presiona Descifrar."
    (setDecryptStep ready (setPad (normalizeInput (padInput s) alphabet) s)).
Proof.
  intros Hne. unfold dispatch. cbn [handle].
  unfold onAcceptPadForDecrypt, onAcceptPadForDecrypt_body.
  rewrite bool_decide_eq_false_2 by (intros H0; apply Hne, nil_length_inv, H0).
  cbn [throw_if mbind result_bind mret result_ret try_catch].
  apply commit_unchanged; reflexivity.
Qed.

Lemma decrypt_success_state (s : Session) :
  settled s ->
  decryptStep s = ready ->
  normalizeInput (cipher s) alphabet <> [] ->
  length (normalizeInput (cipher s) alphabet) = length (pad s) ->
  dispatch ClickDecrypt s =
  setInterval
    (setCountdown (Some 300)
      (setOK "Descifrado recuperado. El mensaje se limpiará automáticamente en 5 minutos."
        (setMessage
          (fromIndices
            (otpSub (toIndices (normalizeInput (cipher s) alphabet) alphabet)
                    (toIndices (pad s) alphabet) modulus) alphabet) s))).
Proof.
  intros Hs Hstep Hne Hlen. unfold dispatch. cbn [handle].
  rewrite (onDecrypt_success s Hstep Hne Hlen).
  set (cur := setCountdown _ _).
  destruct (decide (countdown s = Some 300)) as [Heq|Hneq].
  - rewrite commit_unchanged; [|reflexivity|rewrite Heq; reflexivity].
    unfold settled in Hs. rewrite Heq in Hs. destruct Hs as [_ Hi].
    unfold cur. destruct s; simpl in *; subst; reflexivity.
  - rewrite (commit_countdown_running s cur 300); [|reflexivity|reflexivity|assumption|lia].
    unfold cur. destruct s; reflexivity.
Qed.

Lemma mode_change_state (m : option Mode) (s : Session) :
  settled s -> m <> modeScreen s ->
  dispatch (ClickMode m) s = clearInterval (resetAll (setModeScreen m s)).
Proof.
  intros Hs Hm. unfold dispatch, commit. cbn [handle]. change 2%nat with (S 1).
  remember 1%nat as b eqn:Hb. cbn [flushEffects]. subst b.
  change (modeScreen (setModeScreen m s)) with m.
  change (countdown (setModeScreen m s)) with (countdown s).
  rewrite (bool_decide_eq_true_2 (modeScreen s <> m)) by congruence.
  rewrite (bool_decide_eq_false_2 (countdown s <> countdown s))
    by (intros H; apply H; reflexivity).
  cbn [orb]. rewrite flushEffects_reset.
  change (countdown (setModeScreen m s)) with (countdown s).
  unfold settled in Hs. destruct (countdown s); [reflexivity|].
  destruct s; simpl in *; subst; reflexivity.
Qed.

Lemma input_state (s : Session) (v : jsstring) :
  dispatch (ChangePadInput v) s = setPadInput v s /\
  dispatch (ChangeMessage v) s = setMessage v s /\
  dispatch (ChangeCipher v) s = setCipher v s.
Proof.
  unfold dispatch. cbn [handle].
  repeat split; apply commit_unchanged; reflexivity.
Qed.

End HandlerStates.

Lemma encrypt_result (U : UnicodeData) (crypto : Crypto) (s : Session) :
  normalizeInput (message s) alphabet <> [] ->
  Z.of_nat (length (normalizeInput (message s) alphabet)) <= 16384 ->
  let s' := dispatch (ClickEncrypt crypto) s in
  showEncryptResults s' = true /\
  status s' = mkStatus "Cifrado listo. Copia el pad y el texto cifrado." (Some ok) /\
  message s' = message s /\
  modeScreen s' = modeScreen s /\
  countdown s' = countdown s /\
  length (pad s') = length (normalizeInput (message s) alphabet) /\
  length (cipher s') = length (normalizeInput (message s) alphabet) /\
  Forall (fun c => c ∈ alphabet) (pad s') /\
  Forall (fun c => c ∈ alphabet) (cipher s') /\
  toIndices (pad s') alphabet =
    map (fun i => Int (random_word crypto i mod 64))
      (seq 0 (length (normalizeInput (message s) alphabet))) /\
  fromIndices (otpSub (toIndices (cipher s') alphabet) (toIndices (pad s') alphabet)
                 modulus) alphabet = normalizeInput (message s) alphabet.
Proof.
  intros Hne Hlen s'. subst s'. rewrite (encrypt_success_state crypto s Hne Hlen).
  session_fields. unfold modulus, alphabet in *.
  set (norm := normalizeInput (message s) UNIFIED_ALPHABET) in *.
  set (idx := map _ (seq 0 (length norm))).
  destruct (fromIndices_index_sequence UNIFIED_ALPHABET idx alphabet_NoDup
              (word_indices_in_range crypto (length norm))) as (Hl & Hin & Hto).
  assert (Hpl : length (fromIndices idx UNIFIED_ALPHABET) = length norm).
  { rewrite Hl. unfold idx. rewrite length_map. apply length_seq. }
  assert (Hnorm : Forall (fun c => c ∈ UNIFIED_ALPHABET) norm).
  { apply Forall_forall. intros c Hc. apply normalizeInput_elem in Hc. tauto. }
  destruct (text_round_trip_codec UNIFIED_ALPHABET norm (fromIndices idx UNIFIED_ALPHABET)
              alphabet_NoDup Hnorm Hin (eq_sym Hpl)) as (Hcl & Hcin & Hback).
  repeat split; assumption.
Qed.

(** X14: an encryption of a message whose normalized form is not empty and
    has at most 16384 characters shows a pad and a ciphertext of the length
    of the normalized message, both written over the alphabet; the pad
    symbol at position i has the index w mod 64 of the i-th random word;
    decoding the ciphertext with the pad gives the normalized message; the
    message typed, the mode and the countdown are not changed. *)
Theorem encrypt_success (U : UnicodeData) (crypto : Crypto) (s : Session) :
  normalizeInput (message s) alphabet <> [] ->
  Z.of_nat (length (normalizeInput (message s) alphabet)) <= 16384 ->
  let s' := dispatch (ClickEncrypt crypto) s in
  showEncryptResults s' = true /\
  status s' = mkStatus "Cifrado listo. Copia el pad y el texto cifrado." (Some ok) /\
  message s' = message s /\
  modeScreen s' = modeScreen s /\
  countdown s' = countdown s /\
  length (pad s') = length (normalizeInput (message s) alphabet) /\
  length (cipher s') = length (normalizeInput (message s) alphabet) /\
  Forall (fun c => c ∈ alphabet) (pad s') /\
  Forall (fun c => c ∈ alphabet) (cipher s') /\
  toIndices (pad s') alphabet =
    map (fun i => Int (random_word crypto i mod 64))
      (seq 0 (length (normalizeInput (message s) alphabet))) /\
  fromIndices (otpSub (toIndices (cipher s') alphabet) (toIndices (pad s') alphabet)
                 modulus) alphabet = normalizeInput (message s) alphabet.
Proof. apply encrypt_result. Qed.

Lemma encrypt_success_witness :
  toIndices (pad (dispatch (ClickEncrypt words_4_9) message_entered)) alphabet =
    map Int [4; 13; 22; 31; 40; 49; 58; 3; 12; 21; 30] /\
  fromIndices
    (otpSub (toIndices (cipher (dispatch (ClickEncrypt words_4_9) message_entered)) alphabet)
            (toIndices (pad (dispatch (ClickEncrypt words_4_9) message_entered)) alphabet)
            modulus) alphabet = lit "HOLA, MUNDO".
Proof.
  destruct (encrypt_success Latin1 words_4_9 message_entered)
    as (_ & _ & _ & _ & _ & _ & _ & _ & _ & Hpad & Hback).
  - vm_compute. discriminate.
  - vm_compute. discriminate.
  - split; [rewrite Hpad | rewrite Hback]; vm_compute; reflexivity.
Defined.

Lemma text_decode_encode_codec (a c p : jsstring) :
  NoDup a ->
  Forall (fun x => x ∈ a) c ->
  Forall (fun x => x ∈ a) p ->
  length c = length p ->
  length (fromIndices (otpSub (toIndices c a) (toIndices p a) (js_length a)) a) =
    length c /\
  Forall (fun x => x ∈ a)
    (fromIndices (otpSub (toIndices c a) (toIndices p a) (js_length a)) a) /\
  fromIndices
    (otpAdd (toIndices
               (fromIndices (otpSub (toIndices c a) (toIndices p a) (js_length a)) a) a)
            (toIndices p a) (js_length a)) a = c.
Proof.
  intros Hnd Hc Hp Hlen. unfold js_length.
  set (M := Z.of_nat (length a)).
  pose proof (toIndices_index_sequence a c Hc) as Hci.
  pose proof (toIndices_index_sequence a p Hp) as Hpi.
  assert (Hli : length (toIndices c a) = length (toIndices p a)).
  { unfold toIndices. rewrite !length_map. exact Hlen. }
  pose proof (otpSub_in_range M _ _ Hli Hci Hpi) as Hmi.
  destruct (fromIndices_index_sequence a _ Hnd Hmi) as (Hl & Hin & Hto).
  split; [|split; [exact Hin|]].
  - rewrite Hl, otpSub_length. unfold toIndices. apply length_map.
  - rewrite Hto, (otpAdd_otpSub M _ _ Hli Hci Hpi).
    rewrite fromIndices_toIndices_filter.
    clear -Hc. induction Hc as [|x t Hx Ht IH]; [reflexivity|].
    rewrite filter_cons_True by assumption. f_equal. exact IH.
Qed.

Lemma normalizeInput_over (U : UnicodeData) (x a : jsstring) :
  Forall (fun c => c ∈ a) (normalizeInput x a).
Proof.
  apply Forall_forall. intros c Hc. apply normalizeInput_elem in Hc. tauto.
Qed.

(** X15: a request that a handler rejects changes the status line and
    nothing else: an encryption whose message has no symbol of the alphabet
    left after normalization, the acceptance of a pad without such a symbol,
    and a decryption before a pad is accepted leave the session as it is,
    with the message of the error shown in the error tone. *)
Theorem rejected_requests (U : UnicodeData) (crypto : Crypto) (s : Session) :
  (normalizeInput (message s) alphabet = [] ->
   dispatch (ClickEncrypt crypto) s = setErr "Escribe el mensaje que quieres cifrar." s) /\
  (normalizeInput (padInput s) alphabet = [] ->
   dispatch ClickAcceptPad s = setErr "Pega primero el PAD / Clave." s) /\
  (decryptStep s = askPad ->
   dispatch ClickDecrypt s = setErr "Primero proporciona el PAD / Clave." s).
Proof.
  unfold dispatch. cbn [handle]. repeat split; intros H.
  - unfold onEncrypt, onEncrypt_body. rewrite H.
    cbn [length]. rewrite bool_decide_eq_true_2 by reflexivity.
    cbn [throw_if mbind result_bind try_catch].
    apply commit_unchanged; reflexivity.
  - unfold onAcceptPadForDecrypt, onAcceptPadForDecrypt_body. rewrite H.
    cbn [length]. rewrite bool_decide_eq_true_2 by reflexivity.
    cbn [throw_if mbind result_bind try_catch].
    apply commit_unchanged; reflexivity.
  - unfold onDecrypt, onDecrypt_body. rewrite H.
    cbn [throw_if mbind result_bind try_catch].
    apply commit_unchanged; reflexivity.
Qed.

Lemma rejected_requests_witness :
  dispatch (ClickEncrypt words_4_9) (dispatch (ChangeMessage (lit "~~~")) mount) =
    setErr "Escribe el mensaje que quieres cifrar."
      (dispatch (ChangeMessage (lit "~~~")) mount) /\
  dispatch ClickAcceptPad (dispatch (ChangePadInput (lit "~~~")) mount) =
    setErr "Pega primero el PAD / Clave." (dispatch (ChangePadInput (lit "~~~")) mount) /\
  dispatch ClickDecrypt mount = setErr "Primero proporciona el PAD / Clave." mount.
Proof.
  pose proof (rejected_requests Latin1 words_4_9
                (dispatch (ChangeMessage (lit "~~~")) mount)) as (H1 & _ & _).
  pose proof (rejected_requests Latin1 words_4_9
                (dispatch (ChangePadInput (lit "~~~")) mount)) as (_ & H2 & _).
  pose proof (rejected_requests Latin1 words_4_9 mount) as (_ & _ & H3).
  split; [|split].
  - exact (H1 ltac:(vm_compute; reflexivity)).
  - exact (H2 ltac:(vm_compute; reflexivity)).
  - exact (H3 eq_refl).
Defined.

(** X16: accepting a pad whose normalized form is not empty stores the
    normalized pad, which is written over the alphabet and never contains
    U+00D1, and makes the ciphertext step ready; the texts entered, the mode
    and the countdown are not changed, and a session that awaited the pad
    with no countdown set shows the ciphertext entry. *)
Theorem accept_pad_success (U : UnicodeData) (F : UnicodeFacts U) (s : Session) :
  normalizeInput (padInput s) alphabet <> [] ->
  let s' := dispatch ClickAcceptPad s in
  pad s' = normalizeInput (padInput s) alphabet /\
  decryptStep s' = ready /\
  status s' = mkStatus "PAD listo. Ahora pega el texto cifrado y presiona Descifrar."
                (Some ok) /\
  Forall (fun c => c ∈ alphabet) (pad s') /\
  (N_TILDE ∉ pad s') /\
  padInput s' = padInput s /\ cipher s' = cipher s /\ message s' = message s /\
  modeScreen s' = modeScreen s /\ countdown s' = countdown s /\
  (phase s = AwaitingPad -> countdown s = None -> phase s' = PadAccepted).
Proof.
  intros Hne s'. subst s'. rewrite (accept_success_state s Hne).
  session_fields. do 3 (split; [reflexivity|]).
  split; [apply normalizeInput_over|].
  split; [apply normalizeInput_no_n_tilde|].
  do 5 (split; [reflexivity|]).
  unfold phase. session_fields.
  destruct (modeScreen s) as [[|]|]; try discriminate.
  - destruct (showEncryptResults s); discriminate.
  - intros _ Hc. rewrite Hc. reflexivity.
Qed.

Lemma accept_pad_success_witness :
  pad (dispatch ClickAcceptPad
         (run [ClickMode (Some decrypt); ChangePadInput (lit "abc d" ++ [0xE9%N] ++ lit "f-ghij")] mount)) =
    lit "ABC DEF-GHIJ" /\
  phase (dispatch ClickAcceptPad
           (run [ClickMode (Some decrypt); ChangePadInput (lit "abc d" ++ [0xE9%N] ++ lit "f-ghij")] mount)) =
    PadAccepted.
Proof.
  destruct (accept_pad_success Latin1 Latin1_facts
              (run [ClickMode (Some decrypt); ChangePadInput (lit "abc d" ++ [0xE9%N] ++ lit "f-ghij")] mount))
    as (Hpad & _ & _ & _ & _ & _ & _ & _ & _ & _ & Hphase).
  - vm_compute. discriminate.
  - split.
    + rewrite Hpad. vm_compute. reflexivity.
    + apply Hphase; vm_compute; reflexivity.
Defined.

(** X17: a decryption in a session with an accepted pad written over the
    alphabet, whose normalized ciphertext is not empty and has the length of
    the pad, shows a plaintext of that length written over the alphabet,
    whose encoding with the pad is the normalized ciphertext; it sets the
    countdown to 300 seconds with the interval pending, and keeps the pad and
    the ciphertext entered. *)
Theorem decrypt_success (U : UnicodeData) (s : Session) :
  settled s ->
  decryptStep s = ready ->
  normalizeInput (cipher s) alphabet <> [] ->
  length (normalizeInput (cipher s) alphabet) = length (pad s) ->
  Forall (fun c => c ∈ alphabet) (pad s) ->
  let s' := dispatch ClickDecrypt s in
  countdown s' = Some 300 /\ interval s' = true /\
  status s' =
    mkStatus "Descifrado recuperado. El mensaje se limpiará automáticamente en 5 minutos."
      (Some ok) /\
  pad s' = pad s /\ cipher s' = cipher s /\
  length (message s') = length (normalizeInput (cipher s) alphabet) /\
  Forall (fun c => c ∈ alphabet) (message s') /\
  fromIndices (otpAdd (toIndices (message s') alphabet) (toIndices (pad s) alphabet)
                 modulus) alphabet = normalizeInput (cipher s) alphabet /\
  (modeScreen s = Some decrypt -> phase s' = DecryptedActive 300).
Proof.
  intros Hs Hstep Hne Hlen Hpad s'. subst s'.
  rewrite (decrypt_success_state s Hs Hstep Hne Hlen).
  unfold phase. session_fields. unfold modulus, alphabet in *.
  destruct (text_decode_encode_codec UNIFIED_ALPHABET
              (normalizeInput (cipher s) UNIFIED_ALPHABET) (pad s)
              alphabet_NoDup (normalizeInput_over U _ _) Hpad Hlen) as (Hl & Hin & Hback).
  do 5 (split; [reflexivity|]).
  do 3 (split; [assumption|]).
  intros Hm. rewrite Hm, Hstep. reflexivity.
Qed.

Lemma decrypt_success_witness :
  message decrypted = lit "HOLA MUNDO" /\ phase decrypted = DecryptedActive 300.
Proof.
  destruct (decrypt_success Latin1 (dispatch (ChangeCipher (lit "HPND.Q0TLX")) pad_accepted))
    as (_ & _ & _ & _ & _ & _ & _ & _ & Hphase).
  - vm_compute. auto.
  - vm_compute. reflexivity.
  - vm_compute. discriminate.
  - vm_compute. reflexivity.
  - apply (bool_decide_unpack _). vm_compute. exact I.
  - split; [vm_compute; reflexivity|].
    apply Hphase. vm_compute. reflexivity.
Defined.

(** X18: when neither the pad nor the ciphertext of an encryption contains
    U+00D1, a receiver in decrypt mode who pastes the pad, accepts it, pastes
    the ciphertext and decrypts reads the normalized message of the sender,
    with the countdown started at 300 seconds. *)
Theorem sender_receiver_round_trip (U : UnicodeData) (F : UnicodeFacts U)
    (crypto : Crypto) (s r : Session) :
  normalizeInput (message s) alphabet <> [] ->
  Z.of_nat (length (normalizeInput (message s) alphabet)) <= 16384 ->
  N_TILDE ∉ pad (dispatch (ClickEncrypt crypto) s) ->
  N_TILDE ∉ cipher (dispatch (ClickEncrypt crypto) s) ->
  settled r ->
  modeScreen r = Some decrypt ->
  let r' := run [ChangePadInput (pad (dispatch (ClickEncrypt crypto) s)); ClickAcceptPad;
                 ChangeCipher (cipher (dispatch (ClickEncrypt crypto) s)); ClickDecrypt] r in
  message r' = normalizeInput (message s) alphabet /\
  phase r' = DecryptedActive 300.
Proof.
  intros Hne Hlen Hp Hc Hr Hmode r'. subst r'.
  destruct (encrypt_result U crypto s Hne Hlen)
    as (_ & _ & _ & _ & _ & Hpl & Hcl & Hpin & Hcin & _ & Hback).
  set (e := dispatch (ClickEncrypt crypto) s) in *.
  unfold alphabet, modulus in *.
  assert (Hpfix : normalizeInput (pad e) UNIFIED_ALPHABET = pad e).
  { apply normalizeInput_fixed. apply Forall_forall. intros c Hin. split.
    - revert c Hin. apply Forall_forall. exact Hpin.
    - intros ->. contradiction. }
  assert (Hcfix : normalizeInput (cipher e) UNIFIED_ALPHABET = cipher e).
  { apply normalizeInput_fixed. apply Forall_forall. intros c Hin. split.
    - revert c Hin. apply Forall_forall. exact Hcin.
    - intros ->. contradiction. }
  assert (Hpne : pad e <> []).
  { intros H0. apply Hne. apply nil_length_inv. rewrite <- Hpl, H0. reflexivity. }
  assert (Hcne : cipher e <> []).
  { intros H0. apply Hne. apply nil_length_inv. rewrite <- Hcl, H0. reflexivity. }
  unfold run. cbn [fold_left].
  destruct (input_state r (pad e)) as (-> & _ & _).
  rewrite accept_success_state
    by (unfold alphabet; session_fields; rewrite Hpfix; exact Hpne).
  unfold alphabet. session_fields. rewrite Hpfix.
  set (r2 := setOK _ _).
  assert (Hr2 : settled r2).
  { unfold r2, settled. session_fields. exact Hr. }
  destruct (input_state r2 (cipher e)) as (_ & _ & ->).
  set (r3 := setCipher (cipher e) r2).
  assert (Hr3 : settled r3) by exact Hr2.
  assert (Hstep : decryptStep r3 = ready) by reflexivity.
  assert (Hcr3 : normalizeInput (cipher r3) alphabet <> []).
  { unfold alphabet, r3. session_fields. rewrite Hcfix. exact Hcne. }
  assert (Hlr3 : length (normalizeInput (cipher r3) alphabet) = length (pad r3)).
  { unfold alphabet, r3, r2. session_fields. rewrite Hcfix, Hcl, Hpl. reflexivity. }
  rewrite (decrypt_success_state r3 Hr3 Hstep Hcr3 Hlr3).
  unfold phase, alphabet, modulus, r3, r2. session_fields.
  rewrite Hcfix, Hmode. split; [exact Hback | reflexivity].
Qed.

Lemma sender_receiver_round_trip_witness :
  message
    (run [ChangePadInput (pad (dispatch (ClickEncrypt words_4_9) message_entered));
          ClickAcceptPad;
          ChangeCipher (cipher (dispatch (ClickEncrypt words_4_9) message_entered));
          ClickDecrypt]
       (dispatch (ClickMode (Some decrypt)) mount)) = lit "HOLA, MUNDO".
Proof.
  destruct (sender_receiver_round_trip Latin1 Latin1_facts words_4_9 message_entered
              (dispatch (ClickMode (Some decrypt)) mount)) as (Hm & _).
  - vm_compute. discriminate.
  - vm_compute. discriminate.
  - apply (bool_decide_unpack _). vm_compute. exact I.
  - apply (bool_decide_unpack _). vm_compute. exact I.
  - vm_compute. reflexivity.
  - vm_compute. reflexivity.
  - rewrite Hm. vm_compute. reflexivity.
Defined.

(** X19: in a session reached from the mounted component by mode choices,
    text entries, encrypt, accept-pad, decrypt and clear clicks and timer
    ticks, without a click on the export, choosing a mode other than the one
    shown empties the message, the ciphertext, the pad and the pad entry,
    returns to the pad step, hides the results, removes the countdown and its
    interval and shows the status Listo under the new mode; choosing the mode
    already shown changes nothing.  The export is left out of these runs:
    [downloadText] moves the anchor that React renders to the body and
    removes it, and React fails on the next commit that unmounts it. *)
Theorem mode_change_resets (U : UnicodeData) (es : list Event) (m : option Mode) :
  (m = modeScreen (run es mount) ->
   dispatch (ClickMode m) (run es mount) = run es mount) /\
  (m <> modeScreen (run es mount) ->
   dispatch (ClickMode m) (run es mount) =
     {| modeScreen := m; decryptStep := askPad; padInput := []; message := [];
        cipher := []; pad := []; status := Listo; showEncryptResults := false;
        countdown := None; interval := false |} /\
   phase (dispatch (ClickMode m) (run es mount)) =
     match m with
     | None => Idle
     | Some encrypt => MessageEntry
     | Some decrypt => AwaitingPad
     end).
Proof.
  pose proof (run_settled es mount mount_settled) as Hs.
  set (s := run es mount) in *. split.
  - intros ->. unfold dispatch. cbn [handle].
    rewrite commit_unchanged by reflexivity. destruct s; reflexivity.
  - intros Hm. rewrite (mode_change_state m s Hs Hm).
    split; [destruct s; reflexivity|].
    unfold phase. session_fields. destruct m as [[|]|]; reflexivity.
Qed.

Lemma mode_change_resets_witness :
  phase (dispatch (ClickMode None)
           (run [ClickMode (Some decrypt); ChangePadInput (lit "ABCDEFGHIJ");
                 ClickAcceptPad; ChangeCipher (lit "HPND.Q0TLX"); ClickDecrypt] mount)) =
    Idle /\
  message (dispatch (ClickMode None)
             (run [ClickMode (Some decrypt); ChangePadInput (lit "ABCDEFGHIJ");
                   ClickAcceptPad; ChangeCipher (lit "HPND.Q0TLX"); ClickDecrypt] mount)) =
    [] /\
  interval (dispatch (ClickMode None)
              (run [ClickMode (Some decrypt); ChangePadInput (lit "ABCDEFGHIJ");
                    ClickAcceptPad; ChangeCipher (lit "HPND.Q0TLX"); ClickDecrypt] mount)) =
    false.
Proof.
  destruct (mode_change_resets Latin1
              [ClickMode (Some decrypt); ChangePadInput (lit "ABCDEFGHIJ");
               ClickAcceptPad; ChangeCipher (lit "HPND.Q0TLX"); ClickDecrypt] None)
    as (_ & H).
  destruct H as (Heq & Hphase); [vm_compute; discriminate|].
  rewrite Heq. repeat split.
Defined.

(** ** Export of the pad *)

Lemma trimStart_split (s : jsstring) :
  exists l : jsstring,
    s = l ++ trimStart s /\ Forall (fun c => is_white_space c = true) l.
Proof.
  induction s as [|c s IH]; [exists []; split; [reflexivity|constructor]|].
  cbn [trimStart]. destruct (is_white_space c) eqn:Hc.
  - destruct IH as (l & Hl & Hws). exists (c :: l). split.
    + cbn [app]. f_equal. exact Hl.
    + constructor; assumption.
  - exists []. split; [reflexivity|constructor].
Qed.

Lemma trimStart_head (s : jsstring) (c : N) :
  head (trimStart s) = Some c -> is_white_space c = false.
Proof.
  induction s as [|d s IH]; [discriminate|].
  cbn [trimStart]. destruct (is_white_space d) eqn:Hd; [exact IH|].
  intros [= <-]. exact Hd.
Qed.

Lemma trimEnd_split (s : jsstring) :
  exists r : jsstring,
    s = trimEnd s ++ r /\ Forall (fun c => is_white_space c = true) r.
Proof.
  unfold trimEnd. destruct (trimStart_split (rev s)) as (l & Hl & Hws).
  exists (rev l). split.
  - rewrite <- rev_app_distr, <- Hl, rev_involutive. reflexivity.
  - apply Forall_rev. exact Hws.
Qed.

Lemma trimEnd_last (s : jsstring) (c : N) :
  last (trimEnd s) = Some c -> is_white_space c = false.
Proof.
  unfold trimEnd. rewrite rev_alt.
  change (rev_append ?l []) with (reverse l). rewrite last_reverse.
  apply trimStart_head.
Qed.

Lemma trim_split (s : jsstring) :
  exists l r : jsstring,
    s = l ++ trim s ++ r /\
    Forall (fun c => is_white_space c = true) l /\
    Forall (fun c => is_white_space c = true) r /\
    (forall c, head (trim s) = Some c -> is_white_space c = false) /\
    (forall c, last (trim s) = Some c -> is_white_space c = false).
Proof.
  unfold trim. destruct (trimStart_split s) as (l & Hl & Hlws).
  destruct (trimEnd_split (trimStart s)) as (r & Hr & Hrws).
  exists l, r. split; [|split; [exact Hlws|split; [exact Hrws|split]]].
  - rewrite <- Hr. exact Hl.
  - intros c Hc. apply (trimStart_head s).
    rewrite Hr. destruct (trimEnd (trimStart s)); [discriminate|exact Hc].
  - apply trimEnd_last.
Qed.

Lemma alphabet_white_space (c : N) :
  c ∈ UNIFIED_ALPHABET -> is_white_space c = true -> c = 0x20%N.
Proof.
  revert c.
  apply (proj1 (Forall_forall (fun c => is_white_space c = true -> c = 0x20%N)
                  UNIFIED_ALPHABET)).
  apply (bool_decide_unpack _). vm_compute. exact I.
Qed.

Lemma spaces_replicate (l : jsstring) :
  Forall (fun c => c ∈ UNIFIED_ALPHABET) l ->
  Forall (fun c => is_white_space c = true) l ->
  l = replicate (length l) 0x20%N.
Proof.
  induction l as [|c l IH]; [reflexivity|].
  intros Ha Hw. apply Forall_cons in Ha as [Hc Ha]. apply Forall_cons in Hw as [Hcw Hw].
  cbn [length replicate]. f_equal; [apply alphabet_white_space; assumption|].
  apply IH; assumption.
Qed.

Lemma export_content (s : Session) :
  Forall (fun c => c ∈ UNIFIED_ALPHABET) (pad s) ->
  exists (l r : nat),
    pad s = replicate l 0x20%N ++ trim (pad s) ++ replicate r 0x20%N /\
    head (trim (pad s)) <> Some 0x20%N /\
    last (trim (pad s)) <> Some 0x20%N /\
    Forall (fun c => c ∈ UNIFIED_ALPHABET) (trim (pad s)).
Proof.
  intros Ha. destruct (trim_split (pad s)) as (l & r & Heq & Hl & Hr & Hh & Hla).
  assert (Hparts : Forall (fun c => c ∈ UNIFIED_ALPHABET) l /\
                   Forall (fun c => c ∈ UNIFIED_ALPHABET) (trim (pad s)) /\
                   Forall (fun c => c ∈ UNIFIED_ALPHABET) r).
  { rewrite Heq in Ha. apply Forall_app in Ha as [H1 H2].
    apply Forall_app in H2 as [H2 H3]. auto. }
  destruct Hparts as (Hal & Hat & Har).
  exists (length l), (length r). split; [|split; [|split; [|exact Hat]]].
  - rewrite <- (spaces_replicate l Hal Hl), <- (spaces_replicate r Har Hr). exact Heq.
  - intros H0. apply Hh in H0. discriminate.
  - intros H0. apply Hla in H0. discriminate.
Qed.

(** X20: for a pad written over the alphabet the export removes the space
    symbols at both ends of the pad and nothing else: the pad is the
    exported content between two runs of spaces, and the content neither
    begins nor ends with a space.  A content that is not empty is handed to
    the browser as pad.txt, with a confirmation; an empty one gives the
    warning and no file.  The session changes in its status only. *)
Theorem export_pad_trimmed (s : Session) :
  Forall (fun c => c ∈ UNIFIED_ALPHABET) (pad s) ->
  exists (l r : nat) (content : jsstring),
    pad s = replicate l 0x20%N ++ content ++ replicate r 0x20%N /\
    head content <> Some 0x20%N /\
    last content <> Some 0x20%N /\
    onExportPad s =
      if bool_decide (content = [])
      then (setWarn "No hay pad para exportar." s, None)
      else (setOK "Pad exportado como pad.txt" s, Some (mkDownload "pad.txt" content)).
Proof.
  intros Ha. destruct (export_content s Ha) as (l & r & Heq & Hh & Hl & _).
  exists l, r, (trim (pad s)). repeat split; assumption || reflexivity.
Qed.

Lemma export_pad_trimmed_witness :
  exists (l r : nat) (content : jsstring),
    pad (dispatch (ClickEncrypt words_space_first) message_entered) =
      replicate l 0x20%N ++ content ++ replicate r 0x20%N /\
    head content <> Some 0x20%N /\
    last content <> Some 0x20%N /\
    onExportPad (dispatch (ClickEncrypt words_space_first) message_entered) =
      if bool_decide (content = [])
      then (setWarn "No hay pad para exportar."
              (dispatch (ClickEncrypt words_space_first) message_entered), None)
      else (setOK "Pad exportado como pad.txt"
              (dispatch (ClickEncrypt words_space_first) message_entered),
            Some (mkDownload "pad.txt" content)).
Proof.
  apply (export_pad_trimmed (dispatch (ClickEncrypt words_space_first) message_entered)).
  apply (bool_decide_unpack _). vm_compute. exact I.
Defined.

Section ExportFlow.
Context {U : UnicodeData} {F : UnicodeFacts U}.

Lemma normalizeInput_alphabet_length (y : jsstring) :
  Forall (fun c => c ∈ UNIFIED_ALPHABET) y ->
  length (normalizeInput y UNIFIED_ALPHABET) = length y.
Proof.
  induction 1 as [|c y Hc Hy IH].
  - rewrite (normalizeInput_fixed []) by constructor. reflexivity.
  - rewrite normalizeInput_cons, length_app, IH. cbn [length]. f_equal.
    destruct (decide (c = N_TILDE)) as [->|Hn].
    + destruct normalizeInput_n_tilde as [-> _]. reflexivity.
    + rewrite (normalizeInput_fixed [c]); [reflexivity|].
      constructor; [split; assumption|constructor].
Qed.

Lemma decrypt_mismatch_state (s : Session) :
  decryptStep s = ready ->
  normalizeInput (cipher s) alphabet <> [] ->
  length (normalizeInput (cipher s) alphabet) <> length (pad s) ->
  dispatch ClickDecrypt s =
  setErr (length_mismatch_message (normalizeInput (cipher s) alphabet) (pad s)) s.
Proof.
  intros Hstep Hne Hlen. unfold dispatch. cbn [handle]. unfold onDecrypt.
  rewrite (onDecrypt_body_mismatch s Hstep Hne Hlen).
  apply commit_unchanged; reflexivity.
Qed.

End ExportFlow.

(** X21: when the pad of an encryption begins or ends with the space symbol,
    the pad file that the export hands out is shorter than the ciphertext:
    a receiver who pastes the content of the file as pad, accepts it, pastes
    the ciphertext and decrypts gets the error of unequal lengths, and no
    plaintext and no countdown. *)
Theorem exported_pad_rejected (U : UnicodeData) (F : UnicodeFacts U)
    (crypto : Crypto) (s r e' : Session) (d : Download) :
  normalizeInput (message s) alphabet <> [] ->
  Z.of_nat (length (normalizeInput (message s) alphabet)) <= 16384 ->
  head (pad (dispatch (ClickEncrypt crypto) s)) = Some 0x20%N \/
  last (pad (dispatch (ClickEncrypt crypto) s)) = Some 0x20%N ->
  onExportPad (dispatch (ClickEncrypt crypto) s) = (e', Some d) ->
  let r' := run [ChangePadInput (content d); ClickAcceptPad;
                 ChangeCipher (cipher (dispatch (ClickEncrypt crypto) s)); ClickDecrypt] r in
  (length (pad r') <
   length (normalizeInput (cipher (dispatch (ClickEncrypt crypto) s)) alphabet))%nat /\
  status r' =
    mkStatus (length_mismatch_message
                (normalizeInput (cipher (dispatch (ClickEncrypt crypto) s)) alphabet)
                (pad r')) (Some err) /\
  message r' = message r /\
  countdown r' = countdown r.
Proof.
  intros Hne Hlen Hends Hexp r'. subst r'.
  destruct (encrypt_result U crypto s Hne Hlen)
    as (_ & _ & _ & _ & _ & Hpl & Hcl & Hpin & Hcin & _ & _).
  set (e := dispatch (ClickEncrypt crypto) s) in *.
  unfold alphabet in *.
  destruct (export_content e Hpin) as (l & k & Heq & Hh & Hla & Hcontent).
  unfold onExportPad in Hexp.
  destruct (bool_decide (trim (pad e) = [])) eqn:Hnil; [discriminate|].
  apply bool_decide_eq_false in Hnil.
  injection Hexp as _ Hd. subst d. cbn [content].
  set (t := trim (pad e)) in *.
  assert (Hshort : (length t < length (pad e))%nat).
  { rewrite Heq, !length_app, !length_replicate.
    destruct l as [|l]; [|lia]. destruct k as [|k]; [|lia].
    exfalso. cbn [replicate app] in Heq. rewrite app_nil_r in Heq.
    rewrite Heq in Hends. destruct Hends; contradiction. }
  assert (Htl : length (normalizeInput t UNIFIED_ALPHABET) = length t)
    by (apply normalizeInput_alphabet_length; exact Hcontent).
  assert (Hcl' : length (normalizeInput (cipher e) UNIFIED_ALPHABET) = length (cipher e))
    by (apply normalizeInput_alphabet_length; exact Hcin).
  assert (Htne : normalizeInput t UNIFIED_ALPHABET <> []).
  { intros H0. rewrite H0 in Htl. symmetry in Htl. apply nil_length_inv in Htl.
    contradiction. }
  assert (Hcne : normalizeInput (cipher e) UNIFIED_ALPHABET <> []).
  { intros H0. rewrite H0 in Hcl'. cbn [length] in Hcl'. lia. }
  unfold run. cbn [fold_left].
  destruct (input_state r t) as (-> & _ & _).
  rewrite accept_success_state by (unfold alphabet; session_fields; exact Htne).
  unfold alphabet. session_fields.
  set (r2 := setOK _ _).
  destruct (input_state r2 (cipher e)) as (_ & _ & ->).
  set (r3 := setCipher (cipher e) r2).
  assert (Hstep : decryptStep r3 = ready) by reflexivity.
  assert (Hmis : length (normalizeInput (cipher r3) alphabet) <> length (pad r3)).
  { unfold alphabet, r3, r2. session_fields. lia. }
  rewrite (decrypt_mismatch_state r3 Hstep Hcne Hmis).
  unfold alphabet, r3, r2. session_fields.
  split; [lia|]. repeat split.
Qed.

Lemma exported_pad_rejected_witness :
  length (pad (dispatch (ClickEncrypt words_space_first) message_entered)) = 11%nat /\
  tone (status
    (run [ChangePadInput
            (trim (pad (dispatch (ClickEncrypt words_space_first) message_entered)));
          ClickAcceptPad;
          ChangeCipher (cipher (dispatch (ClickEncrypt words_space_first) message_entered));
          ClickDecrypt]
       (dispatch (ClickMode (Some decrypt)) mount))) = Some err.
Proof.
  split; [vm_compute; reflexivity|].
  destruct (exported_pad_rejected Latin1 Latin1_facts words_space_first message_entered
              (dispatch (ClickMode (Some decrypt)) mount)
              (setOK "Pad exportado como pad.txt"
                 (dispatch (ClickEncrypt words_space_first) message_entered))
              (mkDownload "pad.txt"
                 (trim (pad (dispatch (ClickEncrypt words_space_first) message_entered)))))
    as (_ & Hst & _).
  - vm_compute. discriminate.
  - vm_compute. discriminate.
  - left. vm_compute. reflexivity.
  - vm_compute. reflexivity.
  - cbn [content] in Hst. rewrite Hst. reflexivity.
Defined.

(** ** Self-tests *)

(** X22: whatever words the random source delivers, the self-tests run to
    the end without an exception; the round trip of HOLA MUNDO, the length of
    a pad of ten symbols and the signs of the sample pass, and the
    normalization test fails. *)
Theorem selfTests_outcome (U : UnicodeData) (F : UnicodeFacts U)
    (crypto1 crypto2 : Crypto) :
  selfTests crypto1 crypto2 =
  Ok {| roundtrip_holds := true; normalization_holds := false;
        pad_length_holds := true; signs_hold := true |}.
Proof.
  unfold selfTests, alphabet.
  rewrite (randomPad_value crypto1 (length (lit "HOLA MUNDO")))
    by (vm_compute; discriminate).
  rewrite (randomPad_value crypto2 10) by lia.
  cbn [mbind result_bind mret result_ret]. do 2 f_equal.
  - apply bool_decide_eq_true_2.
    set (p := fromIndices (map _ (seq _ _)) UNIFIED_ALPHABET).
    destruct (fromIndices_index_sequence UNIFIED_ALPHABET _ alphabet_NoDup
                (word_indices_in_range crypto1 (length (lit "HOLA MUNDO"))))
      as (Hl & Hin & _).
    change (length p = length (map (fun i => Int (random_word crypto1 i mod 64))
                               (seq 0 (length (lit "HOLA MUNDO"))))) in Hl.
    change (Forall (fun c => c ∈ UNIFIED_ALPHABET) p) in Hin.
    assert (Hm : Forall (fun c => c ∈ UNIFIED_ALPHABET) (lit "HOLA MUNDO"))
      by (apply (bool_decide_unpack _); vm_compute; exact I).
    assert (Hlen : length (toIndices (lit "HOLA MUNDO") UNIFIED_ALPHABET) =
                   length (toIndices p UNIFIED_ALPHABET)).
    { unfold toIndices. rewrite !length_map, Hl, length_map, length_seq. reflexivity. }
    unfold js_length.
    rewrite (otpSub_otpAdd _ _ _ Hlen (toIndices_index_sequence _ _ Hm)
               (toIndices_index_sequence _ _ Hin)).
    vm_compute. reflexivity.
  - apply bool_decide_eq_false_2. apply selftest_expectation_unreachable. exact F.
  - apply bool_decide_eq_true_2.
    destruct (fromIndices_index_sequence UNIFIED_ALPHABET _ alphabet_NoDup
                (word_indices_in_range crypto2 10)) as (Hl & _ & _).
    rewrite Hl, length_map. apply length_seq.
  - apply bool_decide_eq_true_2. apply normalizeInput_fixed.
    apply (bool_decide_unpack _). vm_compute. exact I.
Qed.

Lemma selfTests_outcome_witness :
  selfTests (U := Latin1) words_4_9 words_space_only =
  Ok {| roundtrip_holds := true; normalization_holds := false;
        pad_length_holds := true; signs_hold := true |}.
Proof. apply (selfTests_outcome Latin1 Latin1_facts). Defined.

(** ** Countdown notice *)

Lemma seconds_two_digits (r : Z) :
  0 <= r < 60 ->
  padStart 2 "0" (pretty r) =
  String (digit (r / 10)) (String (digit (r mod 10)) EmptyString).
Proof.
  intros Hr. assert (Hin : r ∈ seqZ 0 60) by (apply elem_of_seqZ; lia).
  clear Hr. revert r Hin.
  apply (proj1 (Forall_forall
    (fun r => padStart 2 "0" (pretty r) =
              String (digit (r / 10)) (String (digit (r mod 10)) EmptyString))
    (seqZ 0 60))).
  apply (bool_decide_unpack _). vm_compute. exact I.
Qed.

(** X23: in every reachable session the notice of the countdown, when it is
    shown, reads m:ss for the minutes m, at most 5, and the seconds ss, below
    60 and written with two digits, of the countdown, which lies between 1
    and 300. *)
Theorem countdown_notice_reads (U : UnicodeData) (es : list Event) (t : string) :
  countdownNotice (run es mount) = Some t ->
  exists m ss : Z,
    0 <= m <= 5 /\ 0 <= ss < 60 /\ 0 < 60 * m + ss <= 300 /\
    countdown (run es mount) = Some (60 * m + ss) /\
    t = "El contenido se limpiará en " +:+ pretty m +:+ ":" +:+
        String (digit (ss / 10)) (String (digit (ss mod 10)) EmptyString) +:+ " min.".
Proof.
  pose proof (run_settled es mount mount_settled) as Hs.
  destruct (run_pad_invariant es mount mount_settled mount_pad_invariant) as (Hcd & _ & _).
  set (s := run es mount) in *. unfold countdownNotice, settled in *.
  destruct (modeScreen s) as [[|]|]; try discriminate.
  destruct (decryptStep s); try discriminate.
  destruct (bool_decide (message s = [])); try discriminate.
  destruct (countdown s) as [n|]; try discriminate.
  destruct (Hcd n eq_refl) as [Hle _]. destruct Hs as [Hpos _].
  cbn [default]. intros [= <-].
  exists (n / 60), (n mod 60).
  pose proof (Z.mod_pos_bound n 60 ltac:(lia)) as Hmod.
  pose proof (Z.div_mod n 60 ltac:(lia)) as Hdm.
  assert (Hdiv : 0 <= n / 60 <= 5).
  { split; [apply Z.div_pos; lia|]. apply Z.div_le_upper_bound; lia. }
  split; [exact Hdiv|]. split; [exact Hmod|]. split; [lia|].
  split; [f_equal; lia|].
  rewrite Z.rem_mod_nonneg by lia.
  rewrite (seconds_two_digits (n mod 60) Hmod). reflexivity.
Qed.

Lemma countdown_notice_reads_witness :
  exists m ss : Z,
    0 <= m <= 5 /\ 0 <= ss < 60 /\ 0 < 60 * m + ss <= 300 /\
    countdown (run [ClickMode (Some decrypt); ChangePadInput (lit "ABCDEFGHIJ");
                    ClickAcceptPad; ChangeCipher (lit "HPND.Q0TLX"); ClickDecrypt;
                    Tick; Tick; Tick] mount) = Some (60 * m + ss) /\
    "El contenido se limpiará en 4:57 min." =
      "El contenido se limpiará en " +:+ pretty m +:+ ":" +:+
      String (digit (ss / 10)) (String (digit (ss mod 10)) EmptyString) +:+ " min.".
Proof.
  apply (countdown_notice_reads Latin1
           [ClickMode (Some decrypt); ChangePadInput (lit "ABCDEFGHIJ");
            ClickAcceptPad; ChangeCipher (lit "HPND.Q0TLX"); ClickDecrypt;
            Tick; Tick; Tick]).
  vm_compute. reflexivity.
Defined.
